(** * ChatOpsMVP: the chat front-end's message exchange

    A shallow embedding of the client side of the streaming exchange:
    - the zustand store of [store/chatStore.ts] (messages, isLoading, error);
    - the [sendMessage] callback of [hooks/useChat.ts], cut at its [await]
      points into a resumable step function;
    - [ChatInput.handleSend] and the [disabled] wiring of [components/Chat.tsx].

    JavaScript strings are sequences of UTF-16 code units, so that
    [String.prototype.trim] sees the white space the language defines. *)

From Stdlib Require Import List Bool Arith NArith ZArith Lia String Ascii.
From Stdlib Require Import DecimalString.
Import ListNotations.

Set Implicit Arguments.

(* ------------------------------------------------------------------ *)
(** ** JavaScript values used by the client *)
(* ------------------------------------------------------------------ *)

Module JS.

(** A string is its list of UTF-16 code units. *)
Definition JSString : Type := list N.

(** An ASCII literal of the source text. *)
Definition lit (s : string) : JSString :=
  map N_of_ascii (list_ascii_of_string s).

Fixpoint JSString_eqb (a b : JSString) : bool :=
  match a, b with
  | [], [] => true
  | x :: a, y :: b => (x =? y)%N && JSString_eqb a b
  | _, _ => false
  end.

(** [`${n}`] for a non-negative integer such as [response.status]. *)
Definition Number_toString (n : N) : JSString :=
  lit (NilEmpty.string_of_uint (N.to_uint n)).

(** WhiteSpace and LineTerminator code points of ECMAScript: TAB, LF, VT, FF,
    CR, SP, NBSP, the Unicode space separators, LS, PS and the BOM. *)
Definition isWhiteSpace (c : N) : bool :=
  ((9 <=? c) && (c <=? 13)
   || (c =? 32) || (c =? 160) || (c =? 5760)
   || ((8192 <=? c) && (c <=? 8202))
   || (c =? 8232) || (c =? 8233) || (c =? 8239) || (c =? 8287)
   || (c =? 12288) || (c =? 65279))%N.

Fixpoint trimStart (s : JSString) : JSString :=
  match s with
  | [] => []
  | c :: rest => if isWhiteSpace c then trimStart rest else s
  end.

Definition trimEnd (s : JSString) : JSString := rev (trimStart (rev s)).

(** [String.prototype.trim] *)
Definition trim (s : JSString) : JSString := trimEnd (trimStart s).

(** What a [throw] carries, as far as the [catch] of [sendMessage] can tell:
    an [Error] instance with its message, or some other value. *)
Inductive Thrown : Type :=
| ErrorObject (message : JSString)
| OtherValue.

(** Result of evaluating an expression that may throw. *)
Inductive Completion (A : Type) : Type :=
| Normal (a : A)
| Throw (err : Thrown).
Arguments Normal {A} a.
Arguments Throw {A} err.

Definition bind {A B} (c : Completion A) (k : A -> Completion B) : Completion B :=
  match c with
  | Normal a => k a
  | Throw err => Throw err
  end.

(** A value produced by [JSON.parse].  A number keeps the text that
    [Number::toString] gives for it and whether it differs from zero:
    nothing else of a number is observed by the client. *)
#[warnings="-register-all"]
Inductive JSON : Type :=
| JNull
| JBool (b : bool)
| JNumber (text : JSString) (nonzero : bool)
| JString (s : JSString)
| JArray (items : list JSON)
| JObject (members : list (JSString * JSON)).

(** A JavaScript value read out of parsed data: [None] is [undefined]. *)
Definition Value : Type := option JSON.

(** Own property of an object built by [JSON.parse]: of duplicate keys the
    last one wins. *)
Fixpoint own_property (name : JSString) (members : list (JSString * JSON)) : Value :=
  match members with
  | [] => None
  | (k, v) :: rest =>
      match own_property name rest with
      | Some later => Some later
      | None => if JSString_eqb k name then Some v else None
      end
  end.

(** Messages of the engine's own TypeErrors, in V8's wording; only their
    being [Error] instances matters to the client. *)
Definition TypeError_null_property (name : JSString) : Thrown :=
  ErrorObject (lit "Cannot read properties of null (reading '" ++ name ++ lit "')").
Definition TypeError_to_primitive : Thrown :=
  ErrorObject (lit "Cannot convert object to primitive value").

(** [data.name] for [name] one of [content], [done]: neither is defined on
    the prototypes of objects, arrays, strings, numbers or booleans, so only
    an own property of an object is ever found; reading from [null] throws. *)
Definition Get (data : JSON) (name : JSString) : Completion Value :=
  match data with
  | JNull => Throw (TypeError_null_property name)
  | JObject members => Normal (own_property name members)
  | _ => Normal None
  end.

(** ToString of parsed data.  An object turns into ["[object Object]"]
    unless an own (hence non-callable) [toString] shadows the inherited one,
    in which case no primitive is found; an array joins its elements with
    commas, [null] elements counting as empty. *)
Fixpoint ToString (v : JSON) : Completion JSString :=
  match v with
  | JNull => Normal (lit "null")
  | JBool true => Normal (lit "true")
  | JBool false => Normal (lit "false")
  | JNumber text _ => Normal text
  | JString s => Normal s
  | JArray items =>
      (fix join (l : list JSON) : Completion JSString :=
         match l with
         | [] => Normal []
         | x :: rest =>
             bind (match x with JNull => Normal [] | _ => ToString x end) (fun sx =>
             bind (join rest) (fun srest =>
             Normal (match rest with
                     | [] => sx
                     | _ :: _ => sx ++ lit "," ++ srest
                     end)))
         end) items
  | JObject members =>
      match own_property (lit "toString") members with
      | Some _ => Throw TypeError_to_primitive
      | None => Normal (lit "[object Object]")
      end
  end.

(** [s += v] on a string [s]. *)
Definition append_value (s : JSString) (v : Value) : Completion JSString :=
  match v with
  | None => Normal (s ++ lit "undefined")
  | Some j => bind (ToString j) (fun t => Normal (s ++ t))
  end.

(** ToBoolean *)
Definition truthy (v : Value) : bool :=
  match v with
  | None => false
  | Some JNull => false
  | Some (JBool b) => b
  | Some (JNumber _ nonzero) => nonzero
  | Some (JString s) => match s with [] => false | _ :: _ => true end
  | Some (JArray _) => true
  | Some (JObject _) => true
  end.

End JS.
Import JS.


(* ------------------------------------------------------------------ *)
(** ** The message store ([store/chatStore.ts], [types/chat.ts]) *)
(* ------------------------------------------------------------------ *)

Inductive Role : Type := user | assistant.

Record Message : Type := {
  id : JSString;
  content : JSString;
  role : Role;
  timestamp : Z
}.

Record ChatState : Type := {
  messages : list Message;
  isLoading : bool;
  error : option JSString
}.

(** What [uuidv4()] and [new Date()] return when [addMessage] runs. *)
Record Stamp : Type := {
  uuid : JSString;
  now : Z
}.

Module useChatStore.

Definition initial : ChatState :=
  {| messages := []; isLoading := false; error := None |}.

Definition addMessage (stamp : Stamp) (content : JSString) (role : Role)
    (state : ChatState) : ChatState :=
  {| messages := messages state ++
                 [ {| id := uuid stamp; content := content; role := role;
                      timestamp := now stamp |} ];
     isLoading := isLoading state;
     error := error state |}.

Definition setLoading (loading : bool) (state : ChatState) : ChatState :=
  {| messages := messages state; isLoading := loading; error := error state |}.

Definition setError (error : option JSString) (state : ChatState) : ChatState :=
  {| messages := messages state; isLoading := isLoading state; error := error |}.

Definition clearMessages (state : ChatState) : ChatState :=
  {| messages := []; isLoading := isLoading state; error := error state |}.

End useChatStore.

(* ------------------------------------------------------------------ *)
(** ** The wire, as the client sees it *)
(* ------------------------------------------------------------------ *)

(** One entry of the [messages] array of the request body. *)
Record ConversationMessage : Type := {
  cm_role : Role;
  cm_content : JSString
}.

(** The object handed to [JSON.stringify] for the request body. *)
Record ChatRequest : Type := {
  req_messages : list ConversationMessage;
  req_stream : bool
}.

(** The call [fetch(url, {method, headers, body})]. *)
Record FetchCall : Type := {
  url : JSString;
  method : JSString;
  content_type : JSString;
  body : ChatRequest
}.

(** What the client looks at in a [Response]: [status], and whether [body]
    is a stream or [null]. *)
Record Response : Type := {
  status : N;
  has_body : bool
}.

(** [response.ok]: the status is in the range 200-299. *)
Definition ok (response : Response) : bool :=
  ((200 <=? status response) && (status response <=? 299))%N.

(** One block delivered by [reader.read()], represented by what
    [JSON.parse(new TextDecoder().decode(value))] makes of it: a SyntaxError
    with the engine's message, or the parsed data. *)
Inductive Block : Type :=
| Unparsable (message : JSString)
| Parses (data : JSON).

Definition JSON_parse_decoded (value : Block) : Completion JSON :=
  match value with
  | Unparsable message => Throw (ErrorObject message)
  | Parses data => Normal data
  end.

(** The object a [reader.read()] promise resolves to. *)
Inductive ReadResult : Type :=
| ReadDone
| ReadValue (value : Block).

(** How an awaited promise settles. *)
Inductive Settlement (A : Type) : Type :=
| Resolved (a : A)
| Rejected (err : Thrown).
Arguments Resolved {A} a.
Arguments Rejected {A} err.

(** The settlements that resume a suspended [sendMessage]. *)
Inductive Resumption : Type :=
| FetchSettled (r : Settlement Response)
| TextSettled (r : Settlement JSString)
| ReadSettled (r : Settlement ReadResult).

(** A [StreamChunk] of [types/chat.ts] and the data a block carrying it
    parses to. *)
Record StreamChunk : Type := {
  chunk_content : JSString;
  chunk_done : bool
}.

Definition chunk_data (c : StreamChunk) : JSON :=
  JObject [ (lit "content", JString (chunk_content c));
            (lit "done", JBool (chunk_done c)) ].

(** Parsed data of the shape of a [StreamChunk], an object whose [content]
    is a string and whose [done] is a boolean, read as that chunk; other
    members and the order of members do not matter. *)
Definition as_StreamChunk (data : JSON) : option StreamChunk :=
  match data with
  | JObject members =>
      match own_property (lit "content") members,
            own_property (lit "done") members with
      | Some (JString s), Some (JBool d) =>
          Some {| chunk_content := s; chunk_done := d |}
      | _, _ => None
      end
  | _ => None
  end.

Definition is_StreamChunk (data : JSON) : bool :=
  match as_StreamChunk data with
  | Some _ => true
  | None => false
  end.

(* ------------------------------------------------------------------ *)
(** ** [useChat]: the [sendMessage] callback ([hooks/useChat.ts]) *)
(* ------------------------------------------------------------------ *)

(** The state [useChat] works on: the store and its own [isStreaming]. *)
Record Hook : Type := {
  chat : ChatState;
  isStreaming : bool
}.

Module useChat.

Import useChatStore.

Definition on_store (f : ChatState -> ChatState) (h : Hook) : Hook :=
  {| chat := f (chat h); isStreaming := isStreaming h |}.

Definition setIsStreaming (streaming : bool) (h : Hook) : Hook :=
  {| chat := chat h; isStreaming := streaming |}.

(** The points at which [sendMessage] is suspended on a promise, with the
    local variables that are live there. *)
Inductive Suspended : Type :=
| AwaitFetch                                  (* await fetch(...) *)
| AwaitText (response_status : N)             (* await response.text() *)
| AwaitRead (accumulatedContent : JSString).  (* await reader.read() *)

(** Where a run of synchronous code ends: at the next [await], or at the
    end of the callback. *)
Inductive Step : Type :=
| Suspend (k : Suspended) (h : Hook)
| Return (h : Hook).

Definition hook_of (s : Step) : Hook :=
  match s with
  | Suspend _ h => h
  | Return h => h
  end.

(** The request built at lines 21-33. *)
Definition request (content : JSString) : FetchCall :=
  {| url := lit "/api/v1/chat";
     method := lit "POST";
     content_type := lit "application/json";
     body := {| req_messages := [ {| cm_role := user; cm_content := content |} ];
                req_stream := true |} |}.

(** The [finally] block. *)
Definition finally (h : Hook) : Hook :=
  setIsStreaming false (on_store (setLoading false) h).

(** The [catch] block, followed by [finally]. *)
Definition catch (err : Thrown) (h : Hook) : Hook :=
  finally
    (on_store
       (setError (Some match err with
                       | ErrorObject message => message
                       | OtherValue => lit "An error occurred"
                       end)) h).

(** From the call up to [await fetch(...)]: the store updates and the
    request that goes out. *)
Definition start (stamp : Stamp) (content : JSString) (h : Hook) : FetchCall * Step :=
  let h := on_store (setLoading true) h in
  let h := on_store (setError None) h in
  let h := on_store (addMessage stamp content user) h in
  (request content, Suspend AwaitFetch h).

(** One turn of the [while (true)] body after [reader.read()] has given a
    value: the new accumulation and whether the chunk says [done]. *)
Definition consume (accumulatedContent : JSString) (value : Block)
    : Completion (JSString * bool) :=
  bind (JSON_parse_decoded value) (fun data =>
  bind (Get data (lit "content")) (fun c =>
  bind (append_value accumulatedContent c) (fun accumulatedContent =>
  bind (Get data (lit "done")) (fun d =>
  Normal (accumulatedContent, truthy d))))).

(** Resuming at an [await] with the settlement of its promise, up to the
    next [await] or the end.  [stamp] is what [addMessage] would draw during
    this run.  [None]: the settlement is not one of the awaited promise. *)
Definition resume (stamp : Stamp) (k : Suspended) (r : Resumption) (h : Hook)
    : option Step :=
  match k, r with
  | AwaitFetch, FetchSettled (Rejected err) => Some (Return (catch err h))
  | AwaitFetch, FetchSettled (Resolved response) =>
      if negb (ok response) then
        Some (Suspend (AwaitText (status response)) h)
      else if negb (has_body response) then
        Some (Return (catch (ErrorObject (lit "No response stream available")) h))
      else
        Some (Suspend (AwaitRead []) (setIsStreaming true h))
  | AwaitText response_status, TextSettled (Rejected err) =>
      Some (Return (catch err h))
  | AwaitText response_status, TextSettled (Resolved errorText) =>
      Some (Return (catch
        (ErrorObject (lit "Failed to send message: "
                      ++ Number_toString response_status ++ lit " " ++ errorText)) h))
  | AwaitRead accumulatedContent, ReadSettled (Rejected err) =>
      Some (Return (catch err h))
  | AwaitRead accumulatedContent, ReadSettled (Resolved ReadDone) =>
      Some (Return (finally h))
  | AwaitRead accumulatedContent, ReadSettled (Resolved (ReadValue value)) =>
      match consume accumulatedContent value with
      | Throw err => Some (Return (catch err h))
      | Normal (accumulatedContent, true) =>
          Some (Return (finally (on_store (addMessage stamp accumulatedContent assistant) h)))
      | Normal (accumulatedContent, false) =>
          Some (Suspend (AwaitRead accumulatedContent) h)
      end
  | _, _ => None
  end.

(** How far a call has got when the settlements run out. *)
Inductive Outcome : Type :=
| Finished (h : Hook)
| Pending (k : Suspended) (h : Hook)
| Unexpected (k : Suspended) (r : Resumption) (h : Hook).

Definition final (o : Outcome) : Hook :=
  match o with
  | Finished h => h
  | Pending _ h => h
  | Unexpected _ _ h => h
  end.

(** Feeding the settlements the host delivers, in order, to a step.  Nothing
    is delivered to a callback that has returned. *)
Fixpoint drive (stamp : Stamp) (s : Step) (script : list Resumption) : Outcome :=
  match s with
  | Return h => Finished h
  | Suspend k h =>
      match script with
      | [] => Pending k h
      | r :: script =>
          match resume stamp k r h with
          | Some s => drive stamp s script
          | None => Unexpected k r h
          end
      end
  end.

(** The reads that keep the loop going: the accumulation after [values]
    when each of them is consumed without a throw and without [done];
    [None] when the loop is left before the last of them. *)
Fixpoint accumulate (accumulatedContent : JSString) (values : list Block)
    : option JSString :=
  match values with
  | [] => Some accumulatedContent
  | value :: values =>
      match consume accumulatedContent value with
      | Normal (accumulatedContent, false) => accumulate accumulatedContent values
      | _ => None
      end
  end.

(** A whole call of [sendMessage(content)] against the settlements of
    [script]: the request sent and the outcome. *)
Definition sendMessage (user_stamp assistant_stamp : Stamp) (content : JSString)
    (script : list Resumption) (h : Hook) : FetchCall * Outcome :=
  let '(call, s) := start user_stamp content h in
  (call, drive assistant_stamp s script).

(** The settlements of the reads that deliver [values], one block each. *)
Definition read_values (values : list Block) : list Resumption :=
  map (fun v => ReadSettled (Resolved (ReadValue v))) values.

(** The read that finds the stream closed: [{done: true}]. *)
Definition end_of_data : Resumption := ReadSettled (Resolved ReadDone).

(** The blocks of a stream of chunks. *)
Definition chunks (cs : list StreamChunk) : list Block :=
  map (fun c => Parses (chunk_data c)) cs.

End useChat.

(* ------------------------------------------------------------------ *)
(** ** The input box ([components/Chat.tsx]) *)
(* ------------------------------------------------------------------ *)

Module ChatInput.

Definition nonempty (s : JSString) : bool :=
  match s with
  | [] => false
  | _ :: _ => true
  end.

(** [handleSend] on the draft [message] with the [disabled] prop (optional,
    so possibly undefined): the argument [onSend] is called with, if it is
    called, and the draft afterwards. *)
Definition handleSend (message : JSString) (disabled : option bool)
    : option JSString * JSString :=
  if nonempty (trim message) && negb (match disabled with Some b => b | None => false end)
  then (Some (trim message), [])
  else (None, message).

(** The [disabled] attributes of the textarea and of the Send button. *)
Definition textarea_disabled (disabled : option bool) : bool :=
  match disabled with Some b => b | None => false end.

Definition button_disabled (message : JSString) (disabled : option bool) : bool :=
  match disabled with Some b => b | None => false end || negb (nonempty (trim message)).

(** The two looks of the Send button. *)
Definition button_class (message : JSString) (disabled : option bool) : JSString :=
  lit "px-6 py-3 rounded-lg font-semibold "
  ++ (if match disabled with Some b => b | None => false end
         || negb (nonempty (trim message))
      then lit "bg-gray-300 cursor-not-allowed"
      else lit "bg-blue-500 hover:bg-blue-600 text-white").

(** What [handleKeyPress] looks at in the event. *)
Record KeyboardEvent : Type := {
  key : JSString;
  shiftKey : bool
}.

(** [handleKeyPress]: whether [preventDefault] was called, and what
    [handleSend] did if it ran (nothing sent and the draft as it was,
    otherwise). *)
Definition handleKeyPress (e : KeyboardEvent) (message : JSString)
    (disabled : option bool) : bool * (option JSString * JSString) :=
  if JSString_eqb (key e) (lit "Enter") && negb (shiftKey e)
  then (true, handleSend message disabled)
  else (false, (None, message)).

End ChatInput.

Module Chat.

Import useChat.

(** The prop [disabled={isLoading || isStreaming}] given to [ChatInput]. *)
Definition disabled (h : Hook) : bool :=
  isLoading (chat h) || isStreaming h.

(** A mounted [Chat]: the hook state, the draft in the input box, the calls
    of [sendMessage] that have not returned yet, and the requests sent so
    far. *)
Record Client : Type := {
  hook : Hook;
  message : JSString;
  running : list Suspended;
  sent : list FetchCall
}.

Definition mount : Client :=
  {| hook := {| chat := useChatStore.initial; isStreaming := false |};
     message := [];
     running := [];
     sent := [] |}.

Inductive Event : Type :=
| Change (value : JSString)                       (* typing in the textarea *)
| Send (stamp : Stamp)                            (* Enter or the Send button *)
| Settle (i : nat) (stamp : Stamp) (r : Resumption).
                                 (* the promise awaited by call [i] settles *)

Definition continuation (s : Step) : list Suspended :=
  match s with
  | Suspend k _ => [k]
  | Return _ => []
  end.

(** Enter or a click: [handleSend], with [onSend] wired to [sendMessage].
    The handler is the one of the latest render, and the component renders
    again after every update of the store or of [isStreaming], so the
    [disabled] it sees is that of the current state. *)
Definition send (stamp : Stamp) (c : Client) : Client :=
  match ChatInput.handleSend (message c) (Some (disabled (hook c))) with
  | (Some content, draft) =>
      let '(call, s) := start stamp content (hook c) in
      {| hook := hook_of s;
         message := draft;
         running := running c ++ continuation s;
         sent := sent c ++ [call] |}
  | (None, _) => c
  end.

Definition step (e : Event) (c : Client) : option Client :=
  match e with
  | Change value =>
      Some {| hook := hook c; message := value; running := running c; sent := sent c |}
  | Send stamp => Some (send stamp c)
  | Settle i stamp r =>
      match nth_error (running c) i with
      | None => None
      | Some k =>
          match resume stamp k r (hook c) with
          | None => None
          | Some s =>
              Some {| hook := hook_of s;
                      message := message c;
                      running := firstn i (running c) ++ continuation s
                                 ++ skipn (S i) (running c);
                      sent := sent c |}
          end
      end
  end.

Fixpoint run (events : list Event) (c : Client) : option Client :=
  match events with
  | [] => Some c
  | e :: events =>
      match step e c with
      | Some c => run events c
      | None => None
      end
  end.

End Chat.

(* ------------------------------------------------------------------ *)
(** ** Vocabulary of the properties *)
(* ------------------------------------------------------------------ *)

(** The history [new] keeps every message of [old], in place. *)
Definition extends (old new : list Message) : Prop :=
  exists appended, new = old ++ appended.

Definition user_message (stamp : Stamp) (text : JSString) : Message :=
  {| id := uuid stamp; content := text; role := user; timestamp := now stamp |}.

Definition assistant_message (stamp : Stamp) (text : JSString) : Message :=
  {| id := uuid stamp; content := text; role := assistant; timestamp := now stamp |}.

(** The hook state once a call has returned. *)
Definition settled (history : list Message) (err : option JSString) : Hook :=
  {| chat := {| messages := history; isLoading := false; error := err |};
     isStreaming := false |}.

(** The contents of chunks, concatenated in the order of the list. *)
Definition text_of (cs : list StreamChunk) : JSString :=
  List.concat (map chunk_content cs).

(** No chunk of the list says [done]. *)
Definition none_done (cs : list StreamChunk) : bool :=
  forallb (fun c => negb (chunk_done c)) cs.

(** The history as the conversation a request would carry. *)
Definition conversation (history : list Message) : list ConversationMessage :=
  map (fun m => {| cm_role := role m; cm_content := content m |}) history.

Definition is_assistant (m : Message) : bool :=
  match role m with
  | assistant => true
  | user => false
  end.

(** The hook state at [await fetch(...)]. *)
Definition submitted (stamp : Stamp) (text : JSString) (h : Hook) : Hook :=
  {| chat := {| messages := messages (chat h) ++ [user_message stamp text];
                isLoading := true;
                error := None |};
     isStreaming := isStreaming h |}.

(** Data of the scenarios. *)
Module Scenario.

Definition stamp_u : Stamp := {| uuid := lit "id-user"; now := 1000 |}.
Definition stamp_a : Stamp := {| uuid := lit "id-assistant"; now := 2000 |}.

Definition fresh : Hook :=
  {| chat := useChatStore.initial; isStreaming := false |}.

Definition chunk (text : string) (done : bool) : StreamChunk :=
  {| chunk_content := lit text; chunk_done := done |}.

(** A client that has already completed one exchange. *)
Definition earlier : list Message :=
  [ {| id := lit "id-1"; content := lit "Hi"; role := user; timestamp := 10 |};
    {| id := lit "id-2"; content := lit "Hello"; role := assistant; timestamp := 20 |} ].

Definition returning : Hook :=
  {| chat := {| messages := earlier; isLoading := false; error := None |};
     isStreaming := false |}.

Definition http (code : N) : Resumption :=
  FetchSettled (Resolved {| status := code; has_body := true |}).

(** Scenario D: the connection drops after one non-terminal chunk. *)
Definition dropped : list Resumption :=
  http 200 :: useChat.read_values (useChat.chunks [chunk "Hel" false])
  ++ [useChat.end_of_data].

(** Typing and sending, then typing and pressing Send again before any
    response has come. *)
Definition impatient : list Chat.Event :=
  [ Chat.Change (lit "  Hi "); Chat.Send stamp_u;
    Chat.Change (lit "again"); Chat.Send stamp_a ].

(** The state [impatient] leads to: the second press was ignored. *)
Definition waiting : Chat.Client :=
  {| Chat.hook := submitted stamp_u (lit "Hi") fresh;
     Chat.message := lit "again";
     Chat.running := [useChat.AwaitFetch];
     Chat.sent := [useChat.request (lit "Hi")] |}.

(** A draft of a space, a tab, a line feed and a no-break space. *)
Definition blank : Chat.Client :=
  {| Chat.hook := fresh;
     Chat.message := [32; 9; 10; 160]%N;
     Chat.running := [];
     Chat.sent := [] |}.

(** Scenario C. *)
Definition hello : list StreamChunk :=
  [chunk "Hel" false; chunk "lo" false; chunk "" true].


(** A response that succeeds but has no body. *)
Definition bodiless : Resumption :=
  FetchSettled (Resolved {| status := 204; has_body := false |}).

(** The network fails while the body is being read. *)
Definition cut_off : list Resumption :=
  http 200 :: useChat.read_values (useChat.chunks [chunk "Hel" false])
  ++ [ ReadSettled (Rejected (ErrorObject (lit "network error"))) ].

(** A full exchange, then a press on an empty box, then a failed exchange. *)
Definition two_exchanges : list Chat.Event :=
  [ Chat.Change (lit "Hi"); Chat.Send stamp_u;
    Chat.Settle 0 stamp_a (http 200);
    Chat.Settle 0 stamp_a (ReadSettled (Resolved (ReadValue (Parses (chunk_data (chunk "Hello" true))))));
    Chat.Send {| uuid := lit "id-3"; now := 3000 |};
    Chat.Change (lit "more");
    Chat.Send {| uuid := lit "id-4"; now := 4000 |};
    Chat.Settle 0 {| uuid := lit "id-5"; now := 5000 |} (http 500);
    Chat.Settle 0 {| uuid := lit "id-5"; now := 5000 |} (TextSettled (Resolved (lit "rate limited"))) ].

Definition after_two_exchanges : Chat.Client :=
  {| Chat.hook :=
       settled [ user_message stamp_u (lit "Hi");
                 assistant_message stamp_a (lit "Hello");
                 user_message {| uuid := lit "id-4"; now := 4000 |} (lit "more") ]
               (Some (lit "Failed to send message: 500 rate limited"));
     Chat.message := [];
     Chat.running := [];
     Chat.sent := [useChat.request (lit "Hi"); useChat.request (lit "more")] |}.


(** A stream whose terminal chunk carries text of its own. *)
Definition closing_with_text : list StreamChunk :=
  [chunk "a" false; chunk "b" true].

End Scenario.

(** At most one call of [sendMessage] has not returned, and loading is on
    while there is one. *)
Definition at_most_one (c : Chat.Client) : Prop :=
  match Chat.running c with
  | [] => True
  | [_] => isLoading (chat (Chat.hook c)) = true
  | _ :: _ :: _ => False
  end.

(** A user message whose content is what [trim] leaves of it, and not empty. *)
Definition trimmed (m : Message) : Prop :=
  role m = user -> trim (content m) <> [] /\ trim (content m) = content m.

(** The call is suspended in the read loop. *)
Definition reading (k : useChat.Suspended) : bool :=
  match k with
  | useChat.AwaitRead _ => true
  | _ => false
  end.

(** The last message of the history is a user message ([start] when there
    is none). *)
Fixpoint ends_user (start : bool) (history : list Message) : bool :=
  match history with
  | [] => start
  | m :: history => ends_user (negb (is_assistant m)) history
  end.

(** Every assistant message comes directly after a user message
    ([after_user]: whether one precedes the list). *)
Fixpoint answered (after_user : bool) (history : list Message) : bool :=
  match history with
  | [] => true
  | m :: history =>
      if is_assistant m then after_user && answered false history
      else answered true history
  end.

(** The conversation invariant: one call at most, every answer after a
    question, and a question last while a call is running. *)
Definition dialogue (c : Chat.Client) : Prop :=
  at_most_one c
  /\ answered false (messages (chat (Chat.hook c))) = true
  /\ (Chat.running c <> []
      -> ends_user false (messages (chat (Chat.hook c))) = true).

(** One call at most, and both flags off when there is none. *)
Definition idle_ready (c : Chat.Client) : Prop :=
  at_most_one c
  /\ (Chat.running c = []
      -> isLoading (chat (Chat.hook c)) = false /\ isStreaming (Chat.hook c) = false).

(** The request body that carries the content of a message. *)
Definition body_for (m : Message) : ChatRequest :=
  {| req_messages := [ {| cm_role := user; cm_content := content m |} ];
     req_stream := true |}.

(** The contents of the chunks that do not say [done]. *)
Definition non_terminal_text (cs : list StreamChunk) : JSString :=
  text_of (filter (fun c => negb (chunk_done c)) cs).

(* ------------------------------------------------------------------ *)
(** ** Strings and parsed data *)
(* ------------------------------------------------------------------ *)

Section Trim.

(** The draft is cut at both ends, never inside. *)
Definition clean_start (s : JSString) : bool :=
  match s with
  | [] => true
  | c :: _ => negb (isWhiteSpace c)
  end.

Lemma trimStart_clean (s : JSString) : clean_start (trimStart s) = true.
Proof.
  induction s as [|c s IH]; simpl; [reflexivity|].
  destruct (isWhiteSpace c) eqn:E; [exact IH|].
  simpl. now rewrite E.
Qed.

Lemma trimStart_id (s : JSString) : clean_start s = true -> trimStart s = s.
Proof.
  destruct s as [|c s]; simpl; [reflexivity|].
  now destruct (isWhiteSpace c).
Qed.

Lemma trimStart_suffix (s : JSString) : exists ws, s = ws ++ trimStart s.
Proof.
  induction s as [|c s [ws IH]]; simpl.
  - now exists [].
  - destruct (isWhiteSpace c).
    + exists (c :: ws). simpl. now f_equal.
    + now exists [].
Qed.

Lemma trimEnd_prefix (s : JSString) : exists ws, s = trimEnd s ++ ws.
Proof.
  unfold trimEnd. destruct (trimStart_suffix (rev s)) as [ws E].
  exists (rev ws). rewrite <- rev_app_distr, <- E. now rewrite rev_involutive.
Qed.

Lemma trimEnd_clean_start (s : JSString) :
  clean_start s = true -> clean_start (trimEnd s) = true.
Proof.
  intros H. destruct (trimEnd_prefix s) as [ws E].
  destruct (trimEnd s) as [|c t]; [reflexivity|].
  rewrite E in H. exact H.
Qed.

Lemma trim_idempotent (s : JSString) : trim (trim s) = trim s.
Proof.
  unfold trim at 1.
  rewrite (trimStart_id (trim s)).
  - unfold trim, trimEnd at 1.
    rewrite trimStart_id; [apply rev_involutive|].
    unfold trimEnd. rewrite rev_involutive. apply trimStart_clean.
  - apply trimEnd_clean_start, trimStart_clean.
Qed.

Example trim_keeps_inner_space :
  trim (lit "  a b  ") = lit "a b" /\ trim [160; 9; 10]%N = [].
Proof. split; reflexivity. Qed.

Example status_text :
  Number_toString 500 = lit "500" /\ Number_toString 0 = lit "0".
Proof. split; reflexivity. Qed.

Example join_of_parsed_array :
  ToString (JArray [JNull; JString (lit "a"); JArray [JBool true; JNull]; JObject []])
  = Normal (lit ",a,true,,[object Object]").
Proof. reflexivity. Qed.

Example last_duplicate_key_wins :
  own_property (lit "done") [(lit "done", JBool false); (lit "done", JBool true)]
  = Some (JBool true).
Proof. reflexivity. Qed.

End Trim.

(* ------------------------------------------------------------------ *)
(** ** The read loop *)
(* ------------------------------------------------------------------ *)

Section ReadLoop.

Import useChat.

Variable stamp : Stamp.

Lemma consume_chunk (acc : JSString) (c : StreamChunk) :
  consume acc (Parses (chunk_data c)) = Normal (acc ++ chunk_content c, chunk_done c).
Proof. destruct c as [text done]. reflexivity. Qed.


Lemma accumulate_chunks (cs : list StreamChunk) :
  forall acc, none_done cs = true ->
  accumulate acc (chunks cs) = Some (acc ++ text_of cs).
Proof.
  induction cs as [|c cs IH]; intros acc H.
  - simpl. now rewrite app_nil_r.
  - simpl in H. apply andb_true_iff in H as [Hc Hcs].
    cbn [chunks map accumulate]. rewrite consume_chunk.
    apply negb_true_iff in Hc. rewrite Hc.
    fold (chunks cs). rewrite (IH _ Hcs).
    unfold text_of. cbn [map List.concat]. now rewrite app_assoc.
Qed.

Lemma accumulate_app (xs ys : list Block) :
  forall acc acc', accumulate acc xs = Some acc' ->
  accumulate acc (xs ++ ys) = accumulate acc' ys.
Proof.
  induction xs as [|x xs IH]; intros acc acc' H; simpl in *.
  - now injection H as <-.
  - destruct (consume acc x) as [[acc1 [|]]|]; try discriminate.
    now apply IH.
Qed.

(** Reads that keep the loop going leave the hook state alone and move the
    accumulation. *)
Lemma drive_accumulate (values : list Block) (rest : list Resumption) (h : Hook) :
  forall acc acc', accumulate acc values = Some acc' ->
  drive stamp (Suspend (AwaitRead acc) h) (read_values values ++ rest)
  = drive stamp (Suspend (AwaitRead acc') h) rest.
Proof.
  induction values as [|v values IH]; intros acc acc' H; simpl in H.
  - now injection H as <-.
  - cbn [read_values map app drive resume].
    destruct (consume acc v) as [[acc1 [|]]|]; try discriminate.
    fold (read_values values). now apply IH.
Qed.

(** Data of the shape of a chunk is consumed as the chunk it carries,
    however its members are laid out. *)
Lemma consume_shape (acc : JSString) (data : JSON) (c : StreamChunk) :
  as_StreamChunk data = Some c ->
  consume acc (Parses data) = consume acc (Parses (chunk_data c)).
Proof.
  intros H. rewrite consume_chunk.
  destruct data as [| | | | |members]; try discriminate H.
  unfold consume. cbn [JSON_parse_decoded bind Get]. cbn [as_StreamChunk] in H.
  destruct (own_property (lit "content") members) as [[| | |s| |]|];
    try discriminate H.
  destruct (own_property (lit "done") members) as [[|d| | | |]|];
    try discriminate H.
  injection H as <-. reflexivity.
Qed.

Lemma drive_Return (h : Hook) (script : list Resumption) :
  drive stamp (Return h) script = Finished h.
Proof. now destruct script. Qed.

Lemma drive_shape (blocks : list Block) (cs : list StreamChunk)
    (rest : list Resumption) :
  Forall2 (fun b c => exists data, b = Parses data /\ as_StreamChunk data = Some c)
          blocks cs ->
  forall acc h,
    drive stamp (Suspend (AwaitRead acc) h) (read_values blocks ++ rest)
    = drive stamp (Suspend (AwaitRead acc) h) (read_values (chunks cs) ++ rest).
Proof.
  induction 1 as [|b c blocks cs (data & -> & Hc) _ IH]; intros acc h; [reflexivity|].
  cbn [chunks read_values map app drive resume].
  fold (chunks cs). fold (read_values (chunks cs)). fold (read_values blocks).
  rewrite (consume_shape acc data Hc).
  destruct (consume acc (Parses (chunk_data c))) as [[acc' [|]]|err];
    rewrite ?drive_Return; [reflexivity|apply IH|reflexivity].
Qed.

End ReadLoop.

Section Opening.

Import useChat.

Lemma start_submitted (stamp : Stamp) (text : JSString) (h : Hook) :
  start stamp text h = (request text, Suspend AwaitFetch (submitted stamp text h)).
Proof. reflexivity. Qed.

Lemma sendMessage_drive (u a : Stamp) (text : JSString)
    (script : list Resumption) (h : Hook) :
  sendMessage u a text script h
  = (request text, drive a (Suspend AwaitFetch (submitted u text h)) script).
Proof. reflexivity. Qed.

(** A successful response with a body whose first reads keep the loop
    going: streaming is on and the accumulation is that of those reads. *)
Lemma sendMessage_streaming (u a : Stamp) (text : JSString) (r : Response)
    (values : list Block) (acc : JSString) (rest : list Resumption) (h : Hook) :
  ok r = true -> has_body r = true ->
  accumulate [] values = Some acc ->
  sendMessage u a text (FetchSettled (Resolved r) :: read_values values ++ rest) h
  = (request text,
     drive a (Suspend (AwaitRead acc) (setIsStreaming true (submitted u text h))) rest).
Proof.
  intros Hok Hbody Hacc. rewrite sendMessage_drive. f_equal.
  cbn [drive resume]. rewrite Hok, Hbody. cbn [negb].
  now apply drive_accumulate.
Qed.

(** The results on streams of chunks hold for every encoding of the chunks
    as JSON objects. *)
Lemma sendMessage_shape (u a : Stamp) (text : JSString) (r : Response)
    (blocks : list Block) (cs : list StreamChunk) (rest : list Resumption) (h : Hook) :
  ok r = true -> has_body r = true ->
  Forall2 (fun b c => exists data, b = Parses data /\ as_StreamChunk data = Some c)
          blocks cs ->
  sendMessage u a text (FetchSettled (Resolved r) :: read_values blocks ++ rest) h
  = sendMessage u a text (FetchSettled (Resolved r) :: read_values (chunks cs) ++ rest) h.
Proof.
  intros Hok Hbody Hshape. rewrite !sendMessage_drive. f_equal.
  cbn [drive resume]. rewrite Hok, Hbody. cbn [negb].
  now apply drive_shape.
Qed.

End Opening.

(* ------------------------------------------------------------------ *)
(** ** Properties of one exchange *)
(* ------------------------------------------------------------------ *)

Section Exchange.

Import useChat useChatStore Scenario.

(** C6: the synchronous opening of [sendMessage], which ends at
    [await fetch(...)] and so runs before any response exists, appends
    exactly one user message with the submitted content, sets loading and
    clears the error; every call begins with it, and a call that has been
    delivered no settlement at all is pending at the fetch in that state. *)
Theorem C6_submission_is_optimistic (stamp : Stamp) (text : JSString) (h : Hook) :
  let opened := snd (start stamp text h) in
  opened = Suspend AwaitFetch (hook_of opened)
  /\ messages (chat (hook_of opened))
     = messages (chat h)
       ++ [ {| id := uuid stamp; content := text; role := user;
               timestamp := now stamp |} ]
  /\ isLoading (chat (hook_of opened)) = true
  /\ error (chat (hook_of opened)) = None
  /\ (forall a script,
        snd (sendMessage stamp a text script h) = drive a opened script)
  /\ (forall a,
        snd (sendMessage stamp a text [] h) = Pending AwaitFetch (hook_of opened)).
Proof. cbv zeta. repeat split. Qed.

(** C2 (as the code has it): whatever the history and whatever follows,
    the request body carries one message, the newly submitted user message,
    and [stream: true]. *)
Theorem C2_request_carries_new_message_only (u a : Stamp) (text : JSString)
    (script : list Resumption) (h : Hook) :
  body (fst (sendMessage u a text script h))
  = {| req_messages := [ {| cm_role := user; cm_content := text |} ];
       req_stream := true |}.
Proof. reflexivity. Qed.

(** C5: a response whose status is not a success, with body text
    [errorText], ends the call with the error
    ["Failed to send message: <status> <errorText>"], the user message as
    the only addition to history, and loading (and streaming) false. *)
Theorem C5_failed_status_is_reported (u a : Stamp) (text : JSString) (r : Response)
    (errorText : JSString) (rest : list Resumption) (h : Hook) :
  ok r = false ->
  sendMessage u a text
    (FetchSettled (Resolved r) :: TextSettled (Resolved errorText) :: rest) h
  = (request text,
     Finished (settled (messages (chat h) ++ [user_message u text])
                 (Some (lit "Failed to send message: "
                        ++ Number_toString (status r) ++ lit " " ++ errorText)))).
Proof.
  intros Hok. rewrite sendMessage_drive. f_equal.
  cbn [drive resume]. rewrite Hok. cbn [negb drive resume].
  now destruct rest.
Qed.

(** C1 (as the code has it): when the body ends after reads none of which
    said [done], no assistant message is committed and the call ends with
    loading and streaming false, but the error state stays cleared: the end
    of data is not reported as an error. *)
Theorem C1_end_of_data_commits_nothing (u a : Stamp) (text : JSString) (r : Response)
    (values : list Block) (acc : JSString) (rest : list Resumption) (h : Hook) :
  ok r = true -> has_body r = true ->
  accumulate [] values = Some acc ->
  sendMessage u a text
    (FetchSettled (Resolved r) :: read_values values ++ end_of_data :: rest) h
  = (request text,
     Finished (settled (messages (chat h) ++ [user_message u text]) None)).
Proof.
  intros Hok Hbody Hacc.
  rewrite (sendMessage_streaming u a text r values (end_of_data :: rest) h Hok Hbody Hacc).
  f_equal. cbn [drive resume end_of_data]. now destruct rest.
Qed.


(** The commit made by a chunk that says [done], after chunks that do not. *)
Lemma sendMessage_commit (u a : Stamp) (text : JSString) (r : Response)
    (cs : list StreamChunk) (last : StreamChunk) (rest : list Resumption) (h : Hook) :
  ok r = true -> has_body r = true ->
  none_done cs = true -> chunk_done last = true ->
  sendMessage u a text
    (FetchSettled (Resolved r) :: read_values (chunks (cs ++ [last])) ++ rest) h
  = (request text,
     Finished (settled (messages (chat h)
                        ++ [user_message u text;
                            assistant_message a (text_of cs ++ chunk_content last)])
                 None)).
Proof.
  intros Hok Hbody Hcs Hlast.
  unfold chunks, read_values. rewrite !map_app, <- app_assoc.
  fold (chunks cs). fold (read_values (chunks cs)).
  rewrite (sendMessage_streaming u a text r (chunks cs) _ h Hok Hbody
             (accumulate_chunks cs [] Hcs)).
  f_equal. cbn [map app drive resume]. rewrite consume_chunk, Hlast.
  rewrite drive_Return.
  unfold settled, finally, on_store, setIsStreaming, setLoading, addMessage,
    submitted, assistant_message.
  cbn. now rewrite <- app_assoc.
Qed.

Lemma text_of_app (xs ys : list StreamChunk) :
  text_of (xs ++ ys) = text_of xs ++ text_of ys.
Proof. unfold text_of. now rewrite map_app, concat_app. Qed.

Lemma text_of_last (cs : list StreamChunk) (last : StreamChunk) :
  text_of (cs ++ [last]) = text_of cs ++ chunk_content last.
Proof. rewrite text_of_app. unfold text_of at 2. cbn. now rewrite app_nil_r. Qed.

(** C3: while no chunk has said [done], the accumulation awaiting the next
    read is the concatenation of the contents received, in arrival order;
    and when a chunk then says [done], the assistant message committed has
    the concatenation of the contents of all chunks read, in that order. *)
Theorem C3_accumulation_in_arrival_order (u a : Stamp) (text : JSString)
    (r : Response) (cs : list StreamChunk) (h : Hook) :
  ok r = true -> has_body r = true ->
  none_done cs = true ->
  sendMessage u a text (FetchSettled (Resolved r) :: read_values (chunks cs)) h
  = (request text,
     Pending (AwaitRead (text_of cs)) (setIsStreaming true (submitted u text h)))
  /\ forall (ending : JSString) (rest : list Resumption),
       let last := {| chunk_content := ending; chunk_done := true |} in
       sendMessage u a text
         (FetchSettled (Resolved r) :: read_values (chunks (cs ++ [last])) ++ rest) h
       = (request text,
          Finished (settled (messages (chat h)
                             ++ [user_message u text;
                                 assistant_message a (text_of (cs ++ [last]))])
                      None)).
Proof.
  intros Hok Hbody Hcs. split.
  - rewrite <- (app_nil_r (read_values (chunks cs))).
    rewrite (sendMessage_streaming u a text r (chunks cs) [] h Hok Hbody
               (accumulate_chunks cs [] Hcs)).
    reflexivity.
  - intros ending rest last. rewrite text_of_last.
    now apply sendMessage_commit.
Qed.

Lemma filter_none_done (cs : list StreamChunk) :
  none_done cs = true -> filter (fun c => negb (chunk_done c)) cs = cs.
Proof.
  induction cs as [|c cs IH]; simpl; [reflexivity|].
  intros H. apply andb_true_iff in H as [Hc Hcs].
  rewrite Hc. now rewrite IH.
Qed.

(** C4 (as the code has it): a stream completed by a chunk that says
    [done] appends exactly one assistant message, after the user message,
    and its content is the concatenation of the contents of the
    non-terminal chunks followed by the content of the terminal chunk. *)
Theorem C4_commit_includes_terminal_content (u a : Stamp) (text : JSString)
    (r : Response) (cs : list StreamChunk) (last : StreamChunk)
    (rest : list Resumption) (h : Hook) :
  ok r = true -> has_body r = true ->
  none_done cs = true -> chunk_done last = true ->
  snd (sendMessage u a text
         (FetchSettled (Resolved r) :: read_values (chunks (cs ++ [last])) ++ rest) h)
  = Finished (settled (messages (chat h)
                       ++ [user_message u text]
                       ++ [assistant_message a
                             (non_terminal_text (cs ++ [last]) ++ chunk_content last)])
                None).
Proof.
  intros Hok Hbody Hcs Hlast.
  rewrite (sendMessage_commit u a text r cs last rest h Hok Hbody Hcs Hlast).
  unfold non_terminal_text. rewrite filter_app. cbn [filter]. rewrite Hlast.
  cbn [negb]. rewrite app_nil_r, (filter_none_done cs Hcs). reflexivity.
Qed.

End Exchange.

(* ------------------------------------------------------------------ *)
(** ** History is append-only *)
(* ------------------------------------------------------------------ *)

Section Frame.

Import useChat useChatStore.

Lemma extends_refl (l : list Message) : extends l l.
Proof. exists []. now rewrite app_nil_r. Qed.

Lemma extends_trans (l1 l2 l3 : list Message) :
  extends l1 l2 -> extends l2 l3 -> extends l1 l3.
Proof.
  intros [x ->] [y ->]. exists (x ++ y). now rewrite app_assoc.
Qed.

Lemma finally_messages (h : Hook) :
  messages (chat (finally h)) = messages (chat h).
Proof. reflexivity. Qed.

Lemma catch_messages (err : Thrown) (h : Hook) :
  messages (chat (catch err h)) = messages (chat h).
Proof. reflexivity. Qed.

(** A resumption leaves history as it is, or appends one assistant message
    stamped by this run. *)
Lemma resume_history (stamp : Stamp) (k : Suspended) (r : Resumption) (h : Hook)
    (s : Step) :
  resume stamp k r h = Some s ->
  messages (chat (hook_of s)) = messages (chat h)
  \/ exists t, messages (chat (hook_of s))
               = messages (chat h) ++ [assistant_message stamp t].
Proof.
  destruct k as [|code|acc]; destruct r as [[resp|err]|[t|err]|[[|v]|err]];
    cbn [resume]; try discriminate.
  - destruct (negb (ok resp)); [|destruct (negb (has_body resp))];
      intros [= <-]; now left.
  - intros [= <-]; now left.
  - intros [= <-]; now left.
  - intros [= <-]; now left.
  - intros [= <-]; now left.
  - destruct (consume acc v) as [[acc' [|]]|err]; intros [= <-].
    + right. now exists acc'.
    + now left.
    + now left.
  - intros [= <-]; now left.
Qed.

Lemma resume_extends (stamp : Stamp) (k : Suspended) (r : Resumption) (h : Hook)
    (s : Step) :
  resume stamp k r h = Some s ->
  extends (messages (chat h)) (messages (chat (hook_of s))).
Proof.
  intros H. destruct (resume_history _ _ _ _ H) as [-> | [t ->]].
  - apply extends_refl.
  - now eexists.
Qed.

Lemma drive_extends (stamp : Stamp) (script : list Resumption) :
  forall s, extends (messages (chat (hook_of s)))
                    (messages (chat (final (drive stamp s script)))).
Proof.
  induction script as [|r script IH]; intros [k h|h]; cbn [drive final hook_of];
    try apply extends_refl.
  destruct (resume stamp k r h) as [s|] eqn:E; cbn [final].
  - eapply extends_trans; [exact (resume_extends _ _ _ _ E)|apply IH].
  - apply extends_refl.
Qed.

(** C7: the store operations an exchange uses only append to the message
    list or leave it alone, and so does every step of [sendMessage]: its
    opening, each resumption (those that end in the [catch] included) and
    the call as a whole keep every earlier message, in place. *)
Theorem C7_history_only_grows :
  (forall stamp text who st,
     messages (addMessage stamp text who st)
     = messages st ++ [ {| id := uuid stamp; content := text; role := who;
                           timestamp := now stamp |} ])
  /\ (forall loading st, messages (setLoading loading st) = messages st)
  /\ (forall err st, messages (setError err st) = messages st)
  /\ (forall stamp text h,
        extends (messages (chat h))
                (messages (chat (hook_of (snd (start stamp text h))))))
  /\ (forall stamp k r h,
        match resume stamp k r h with
        | Some s => extends (messages (chat h)) (messages (chat (hook_of s)))
        | None => True
        end)
  /\ (forall u a text script h,
        extends (messages (chat h))
                (messages (chat (final (snd (sendMessage u a text script h)))))).
Proof.
  repeat split.
  - intros stamp text h. now eexists.
  - intros stamp k r h. destruct (resume stamp k r h) eqn:E; [|exact I].
    exact (resume_extends _ _ _ _ E).
  - intros u a text script h. rewrite sendMessage_drive. cbn [snd].
    eapply extends_trans; [|apply drive_extends].
    cbn [hook_of]. now eexists.
Qed.

End Frame.

(* ------------------------------------------------------------------ *)
(** ** The mounted component: properties of every reachable state *)
(* ------------------------------------------------------------------ *)

Section Reachable.

Import useChat useChatStore ChatInput Chat.

Lemma run_invariant (P : Client -> Prop) :
  (forall e c c', P c -> step e c = Some c' -> P c') ->
  forall events c c', P c -> run events c = Some c' -> P c'.
Proof.
  intros Hstep. induction events as [|e events IH]; intros c c' Hc; cbn [run].
  - now intros [= <-].
  - destruct (step e c) as [c1|] eqn:E; [|discriminate].
    apply IH. exact (Hstep _ _ _ Hc E).
Qed.

Lemma handleSend_disabled (draft : JSString) :
  handleSend draft (Some true) = (None, draft).
Proof. unfold handleSend. now rewrite andb_false_r. Qed.

Lemma send_disabled (stamp : Stamp) (c : Client) :
  disabled (hook c) = true -> send stamp c = c.
Proof. intros H. unfold send. now rewrite H, handleSend_disabled. Qed.

Lemma send_blank (stamp : Stamp) (c : Client) :
  trim (message c) = [] -> send stamp c = c.
Proof. intros H. unfold send, handleSend. now rewrite H. Qed.

(** What a press does when it is not ignored. *)
Lemma send_cases (stamp : Stamp) (c : Client) :
  send stamp c = c
  \/ (trim (message c) <> [] /\ disabled (hook c) = false
      /\ send stamp c
         = {| hook := submitted stamp (trim (message c)) (hook c);
              message := [];
              running := running c ++ [AwaitFetch];
              sent := sent c ++ [request (trim (message c))] |}).
Proof.
  unfold send, handleSend.
  destruct (trim (message c)) as [|x t] eqn:Et; [now left|].
  destruct (disabled (hook c)); [now left|].
  right. repeat split. discriminate.
Qed.

Lemma resume_suspend_store (stamp : Stamp) (k k' : Suspended) (r : Resumption)
    (h h' : Hook) :
  resume stamp k r h = Some (Suspend k' h') -> chat h' = chat h.
Proof.
  destruct k as [|code|acc]; destruct r as [[resp|err]|[t|err]|[[|v]|err]];
    cbn [resume]; try discriminate.
  - destruct (negb (ok resp)); [|destruct (negb (has_body resp))];
      intros [= <- <-]; reflexivity.
  - destruct (consume acc v) as [[acc' [|]]|err]; intros [= <- <-]; reflexivity.
Qed.

Lemma step_at_most_one (e : Event) (c c' : Client) :
  at_most_one c -> step e c = Some c' -> at_most_one c'.
Proof.
  unfold at_most_one. intros Hc. destruct e as [value|stamp|i stamp r]; cbn [step].
  - intros [= <-]. exact Hc.
  - intros [= <-]. destruct (send_cases stamp c) as [-> | (_ & Hoff & ->)];
      [exact Hc|]. cbn [running hook].
    destruct (running c) as [|k [|k2 rest]]; [reflexivity| |contradiction].
    unfold disabled in Hoff. rewrite Hc in Hoff. discriminate.
  - destruct (running c) as [|k0 [|k1 rest]] eqn:Er; [| |contradiction].
    + now destruct i.
    + destruct i as [|i]; [|now destruct i]. cbn [nth_error].
      destruct (resume stamp k0 r (hook c)) as [[k' h'|h']|] eqn:E;
        intros [= <-]; cbn [running hook hook_of continuation firstn skipn app].
      * now rewrite (resume_suspend_store _ _ _ _ E).
      * exact I.
Qed.

Lemma step_trimmed (e : Event) (c c' : Client) :
  Forall trimmed (messages (chat (hook c))) -> step e c = Some c' ->
  Forall trimmed (messages (chat (hook c'))).
Proof.
  intros Hc. destruct e as [value|stamp|i stamp r]; cbn [step].
  - intros [= <-]. exact Hc.
  - intros [= <-]. destruct (send_cases stamp c) as [-> | (Hne & _ & ->)];
      [exact Hc|]. cbn [hook submitted chat messages].
    apply Forall_app. split; [exact Hc|]. constructor; [|constructor].
    intros _. cbn [user_message content]. rewrite trim_idempotent. now split.
  - destruct (nth_error (running c) i) as [k|]; [|discriminate].
    destruct (resume stamp k r (hook c)) as [s|] eqn:E; [|discriminate].
    intros [= <-]. cbn [hook].
    destruct (resume_history _ _ _ _ E) as [-> | [t ->]]; [exact Hc|].
    apply Forall_app. split; [exact Hc|]. constructor; [|constructor].
    intros Hrole. discriminate Hrole.
Qed.

(** C8: while loading or streaming is on, the input is disabled and
    [handleSend] sends nothing and changes nothing; and in every state the
    mounted component reaches, at most one call of [sendMessage] has not
    returned, the input being disabled for as long as there is one. *)
Theorem C8_one_exchange_in_flight :
  (forall h draft,
     isLoading (chat h) || isStreaming h = true ->
     textarea_disabled (Some (disabled h)) = true
     /\ button_disabled draft (Some (disabled h)) = true
     /\ handleSend draft (Some (disabled h)) = (None, draft))
  /\ (forall stamp c,
        isLoading (chat (hook c)) || isStreaming (hook c) = true ->
        send stamp c = c)
  /\ (forall events c,
        run events mount = Some c ->
        List.length (running c) <= 1
        /\ (running c <> [] -> disabled (hook c) = true)).
Proof.
  split; [|split].
  - intros h draft H. unfold disabled. rewrite H. cbn [textarea_disabled button_disabled].
    repeat split. apply handleSend_disabled.
  - intros stamp c H. now apply send_disabled.
  - intros events c Hrun.
    assert (Hinv : at_most_one c).
    { eapply run_invariant with (P := at_most_one) (c := mount);
        [exact step_at_most_one|exact I|exact Hrun]. }
    unfold at_most_one in Hinv. unfold disabled.
    destruct (running c) as [|k [|k2 rest]]; cbn [List.length].
    + split; [lia|]. now intros [].
    + split; [lia|]. intros _. now rewrite Hinv.
    + contradiction.
Qed.

(** C10: a press on a draft that trims to nothing changes nothing, so no
    message is appended and no request is sent; a press that is not ignored
    appends one user message whose content is the trimmed draft and sends the
    request for it; and in every state the mounted component reaches, every
    user message in history is non-empty after trimming and equal to its own
    trim. *)
Theorem C10_user_messages_are_trimmed :
  (forall stamp c, trim (message c) = [] -> send stamp c = c)
  /\ (forall stamp c,
        send stamp c = c
        \/ (trim (message c) <> []
            /\ messages (chat (hook (send stamp c)))
               = messages (chat (hook c)) ++ [user_message stamp (trim (message c))]
            /\ sent (send stamp c) = sent c ++ [request (trim (message c))]))
  /\ (forall events c,
        run events mount = Some c ->
        Forall trimmed (messages (chat (hook c)))).
Proof.
  split; [|split].
  - exact send_blank.
  - intros stamp c. destruct (send_cases stamp c) as [E | (Hne & _ & E)];
      [now left|right]. rewrite E. now repeat split.
  - intros events c Hrun.
    eapply run_invariant
      with (P := fun c => Forall trimmed (messages (chat (hook c)))) (c := mount);
      [exact step_trimmed|constructor|exact Hrun].
Qed.

End Reachable.

(* ------------------------------------------------------------------ *)
(** ** Scenarios *)
(* ------------------------------------------------------------------ *)

Section Scenarios.

Import useChat useChatStore ChatInput Chat Scenario.

(** Scenario D: the dropped stream leaves the user message alone in
    history, as C1 says, but the error state is [null]. *)
Lemma C1_dropped_stream_reports_no_error :
  ~ (filter is_assistant
       (messages (chat (final (snd (sendMessage stamp_u stamp_a (lit "Hi") dropped fresh)))))
     = []
     /\ error (chat (final (snd (sendMessage stamp_u stamp_a (lit "Hi") dropped fresh))))
        <> None).
Proof. intros [_ H]. apply H. reflexivity. Qed.

Lemma C1_end_of_data_witness :
  ok {| status := 200; has_body := true |} = true
  /\ accumulate [] (chunks [chunk "Hel" false]) = Some (lit "Hel")
  /\ sendMessage stamp_u stamp_a (lit "Hi") dropped fresh
     = (request (lit "Hi"),
        Finished (settled [user_message stamp_u (lit "Hi")] None)).
Proof.
  split; [reflexivity|split; [reflexivity|]].
  exact (@C1_end_of_data_commits_nothing stamp_u stamp_a (lit "Hi")
           {| status := 200; has_body := true |}
           (chunks [chunk "Hel" false]) (lit "Hel") [] fresh
           eq_refl eq_refl eq_refl).
Defined.

(** With two messages in history, the request carries one, not three. *)
Lemma C2_history_is_not_sent :
  req_messages (body (fst (sendMessage stamp_u stamp_a (lit "How are you?") [] returning)))
  <> conversation (messages (chat returning))
     ++ [ {| cm_role := user; cm_content := lit "How are you?" |} ].
Proof. discriminate. Qed.

(** Scenario C: ["Hel"], ["lo"] and the terminal [""] give ["Hello"]. *)
Lemma C3_hello_witness :
  none_done [chunk "Hel" false; chunk "lo" false] = true
  /\ sendMessage stamp_u stamp_a (lit "Hi") (http 200 :: read_values (chunks hello)) fresh
     = (request (lit "Hi"),
        Finished (settled [user_message stamp_u (lit "Hi");
                           assistant_message stamp_a (lit "Hello")] None)).
Proof.
  split; [reflexivity|].
  exact (proj2 (@C3_accumulation_in_arrival_order stamp_u stamp_a (lit "Hi")
                  {| status := 200; has_body := true |}
                  [chunk "Hel" false; chunk "lo" false] fresh
                  eq_refl eq_refl eq_refl) (lit "") []).
Defined.

(** A terminal chunk with text of its own: the message committed is
    ["ab"], not the ["a"] of the non-terminal chunk. *)
Lemma C4_terminal_text_is_committed :
  ~ exists m,
      messages (chat (final (snd (sendMessage stamp_u stamp_a (lit "Hi")
                                    (http 200 :: read_values (chunks closing_with_text))
                                    fresh))))
      = [user_message stamp_u (lit "Hi"); m]
      /\ role m = assistant
      /\ content m = non_terminal_text closing_with_text.
Proof.
  intros (m & Hm & _ & Hc). vm_compute in Hm. injection Hm as <-.
  vm_compute in Hc. discriminate Hc.
Qed.

Lemma C4_commit_witness :
  none_done [chunk "Hel" false; chunk "lo" false] = true
  /\ chunk_done (chunk "" true) = true
  /\ snd (sendMessage stamp_u stamp_a (lit "Hi") (http 200 :: read_values (chunks hello)) fresh)
     = Finished (settled [user_message stamp_u (lit "Hi");
                          assistant_message stamp_a (lit "Hello")] None).
Proof.
  split; [reflexivity|split; [reflexivity|]].
  exact (@C4_commit_includes_terminal_content stamp_u stamp_a (lit "Hi")
           {| status := 200; has_body := true |}
           [chunk "Hel" false; chunk "lo" false] (chunk "" true) [] fresh
           eq_refl eq_refl eq_refl eq_refl).
Defined.

(** Scenario B: HTTP 500 with body ["rate limited"]. *)
Lemma C5_rate_limited_witness :
  ok {| status := 500; has_body := true |} = false
  /\ sendMessage stamp_u stamp_a (lit "Hi")
       [http 500; TextSettled (Resolved (lit "rate limited"))] fresh
     = (request (lit "Hi"),
        Finished (settled [user_message stamp_u (lit "Hi")]
                    (Some (lit "Failed to send message: 500 rate limited")))).
Proof.
  split; [reflexivity|].
  exact (@C5_failed_status_is_reported stamp_u stamp_a (lit "Hi")
           {| status := 500; has_body := true |} (lit "rate limited") [] fresh
           eq_refl).
Defined.

(** A second press while the first exchange awaits its response. *)
Lemma C8_impatient_witness :
  run impatient mount = Some waiting
  /\ isLoading (chat (hook waiting)) || isStreaming (hook waiting) = true
  /\ handleSend (lit "again") (Some (disabled (hook waiting))) = (None, lit "again")
  /\ List.length (running waiting) <= 1.
Proof.
  split; [reflexivity|split; [reflexivity|split]].
  - exact (proj2 (proj2 (proj1 C8_one_exchange_in_flight (hook waiting) (lit "again")
                           eq_refl))).
  - exact (proj1 (proj2 (proj2 C8_one_exchange_in_flight) impatient waiting eq_refl)).
Defined.



(** A draft of white space only, and the history [impatient] leaves. *)
Lemma C10_blank_witness :
  trim (message blank) = []
  /\ send stamp_u blank = blank
  /\ run impatient mount = Some waiting
  /\ Forall trimmed (messages (chat (hook waiting))).
Proof.
  split; [reflexivity|split; [|split; [reflexivity|]]].
  - exact (proj1 C10_user_messages_are_trimmed stamp_u blank eq_refl).
  - exact (proj2 (proj2 C10_user_messages_are_trimmed) impatient waiting eq_refl).
Defined.

(** [JSON.parse] checks no shape: an empty object is consumed as a chunk
    whose content reads ["undefined"] and which does not say [done]; [null]
    makes the property read throw. *)
Lemma shapeless_data_is_consumed :
  is_StreamChunk (JObject []) = false
  /\ consume [] (Parses (JObject [])) = Normal (lit "undefined", false)
  /\ consume [] (Parses JNull) = Throw (TypeError_null_property (lit "content")).
Proof. repeat split. Qed.

End Scenarios.

(* ------------------------------------------------------------------ *)
(** ** Every way a call can go *)
(* ------------------------------------------------------------------ *)

Section Outcomes.

Import useChat useChatStore Scenario.

(** The shapes a resumption can take: on to the next [await] with the hook
    state as it was, into the read loop with streaming on, or out through
    [catch], through [finally] alone, or through a commit and [finally]. *)
Lemma resume_cases (stamp : Stamp) (k : Suspended) (r : Resumption) (h : Hook)
    (s : Step) :
  resume stamp k r h = Some s ->
  (exists k', s = Suspend k' h /\ reading k' = reading k)
  \/ (k = AwaitFetch /\ s = Suspend (AwaitRead []) (setIsStreaming true h))
  \/ (exists err, s = Return (catch err h))
  \/ (reading k = true /\ s = Return (finally h))
  \/ (exists t, reading k = true
                /\ s = Return (finally (on_store (addMessage stamp t assistant) h))).
Proof.
  destruct k as [|code|acc]; destruct r as [[resp|err]|[t|err]|[[|v]|err]];
    cbn [resume]; try discriminate.
  - destruct (negb (ok resp)); [|destruct (negb (has_body resp))]; intros [= <-].
    + left. now eexists.
    + right; right; left. now eexists.
    + right; left. now split.
  - intros [= <-]. right; right; left. now eexists.
  - intros [= <-]. right; right; left. now eexists.
  - intros [= <-]. right; right; left. now eexists.
  - intros [= <-]. right; right; right; left. now split.
  - destruct (consume acc v) as [[acc' [|]]|err]; intros [= <-].
    + right; right; right; right. now eexists.
    + left. now eexists.
    + right; right; left. now eexists.
  - intros [= <-]. right; right; left. now eexists.
Qed.

(** The exits look at the store only: [finally] overwrites [isStreaming]. *)
Lemma exits_from_store (stamp : Stamp) (h g : Hook) :
  chat h = chat g ->
  (forall err, catch err h = catch err g)
  /\ finally h = finally g
  /\ (forall t, finally (on_store (addMessage stamp t assistant) h)
                = finally (on_store (addMessage stamp t assistant) g)).
Proof.
  intros E. unfold catch, finally, on_store, setIsStreaming. cbn. now rewrite E.
Qed.

Lemma drive_finished (stamp : Stamp) (script : list Resumption) :
  forall k h h',
    drive stamp (Suspend k h) script = Finished h' ->
    (exists err, h' = catch err h)
    \/ h' = finally h
    \/ (exists t, h' = finally (on_store (addMessage stamp t assistant) h)).
Proof.
  induction script as [|r script IH]; intros k h h'; cbn [drive]; [discriminate|].
  destruct (resume stamp k r h) as [s|] eqn:E; [|discriminate].
  destruct (resume_cases _ _ _ _ E)
    as [(k' & -> & _) | [(-> & ->) | [(err & ->) | [(_ & ->) | (t & _ & ->)]]]].
  - apply IH.
  - intros H. apply IH in H.
    destruct (exits_from_store stamp (setIsStreaming true h) h eq_refl)
      as (Ec & Ef & Ea).
    destruct H as [(err & ->) | [-> | (t & ->)]].
    + left. exists err. apply Ec.
    + right; left. apply Ef.
    + right; right. exists t. apply Ea.
  - rewrite drive_Return. intros [= <-]. left. now eexists.
  - rewrite drive_Return. intros [= <-]. now (right; left).
  - rewrite drive_Return. intros [= <-]. right; right. now eexists.
Qed.

Lemma drive_pending (stamp : Stamp) (script : list Resumption) :
  forall k h k' h',
    drive stamp (Suspend k h) script = Pending k' h' ->
    chat h' = chat h
    /\ (reading k = true -> reading k' = true)
    /\ isStreaming h'
       = if reading k then isStreaming h
         else if reading k' then true else isStreaming h.
Proof.
  induction script as [|r script IH]; intros k h k' h'; cbn [drive].
  - intros [= <- <-]. repeat split; [tauto|]. now destruct (reading k).
  - destruct (resume stamp k r h) as [s|] eqn:E; [|discriminate].
    destruct (resume_cases _ _ _ _ E)
      as [(k1 & -> & Hk) | [(-> & ->) | [(err & ->) | [(_ & ->) | (t & _ & ->)]]]];
      try (rewrite drive_Return; discriminate).
    + intros H. apply IH in H. now rewrite Hk in H.
    + intros H. apply IH in H. destruct H as (Hc & Hr & Hs).
      cbn [reading] in *. rewrite (Hr eq_refl).
      split; [exact Hc|split; [now intros _|exact Hs]].
Qed.

Lemma drive_unexpected (stamp : Stamp) (script : list Resumption) :
  forall k h k' r h',
    drive stamp (Suspend k h) script = Unexpected k' r h' -> chat h' = chat h.
Proof.
  induction script as [|r0 script IH]; intros k h k' r h'; cbn [drive]; [discriminate|].
  destruct (resume stamp k r0 h) as [s|] eqn:E; [|now intros [= _ _ <-]].
  destruct (resume_cases _ _ _ _ E)
    as [(k1 & -> & Hk) | [(-> & ->) | [(err & ->) | [(_ & ->) | (t & _ & ->)]]]];
    try (rewrite drive_Return; discriminate).
  - apply IH.
  - intros H. now apply IH in H.
Qed.

(** X1: however a call ends, by a commit, by the end of the data or through
    the [catch] at any of its awaits, it ends with loading and streaming
    false. *)
Theorem finished_call_resets_flags (u a : Stamp) (text : JSString)
    (script : list Resumption) (h h' : Hook) :
  snd (sendMessage u a text script h) = Finished h' ->
  isLoading (chat h') = false /\ isStreaming h' = false.
Proof.
  rewrite sendMessage_drive. cbn [snd]. intros H.
  destruct (drive_finished _ _ _ _ H) as [(err & ->) | [-> | (t & ->)]];
    now split.
Qed.

(** X2: a call that has ended added the user message and nothing else, or
    the user message and one assistant message; in the second case the
    error state is clear, so an error is never recorded together with an
    assistant message. *)
Theorem finished_call_commits_or_fails (u a : Stamp) (text : JSString)
    (script : list Resumption) (h h' : Hook) :
  snd (sendMessage u a text script h) = Finished h' ->
  messages (chat h') = messages (chat h) ++ [user_message u text]
  \/ (exists t,
        messages (chat h')
        = messages (chat h) ++ [user_message u text; assistant_message a t]
        /\ error (chat h') = None).
Proof.
  rewrite sendMessage_drive. cbn [snd]. intros H.
  destruct (drive_finished _ _ _ _ H) as [(err & ->) | [-> | (t & ->)]].
  - now left.
  - now left.
  - right. exists t. split; [|reflexivity].
    cbn. now rewrite <- app_assoc.
Qed.

(** X3: for as long as a call has not ended, loading is on, the error is
    clear and history shows the user message but nothing of the answer:
    the text accumulated so far is not in the store.  If streaming was off
    when the call began, it is on exactly while the call is in the read
    loop. *)
Theorem pending_call_state (u a : Stamp) (text : JSString)
    (script : list Resumption) (h : Hook) (k : Suspended) (h' : Hook) :
  snd (sendMessage u a text script h) = Pending k h' ->
  isLoading (chat h') = true
  /\ error (chat h') = None
  /\ messages (chat h') = messages (chat h) ++ [user_message u text]
  /\ (isStreaming h = false -> isStreaming h' = reading k).
Proof.
  rewrite sendMessage_drive. cbn [snd]. intros H.
  apply drive_pending in H. destruct H as (Hc & _ & Hs).
  rewrite Hc. repeat split. intros Hoff. rewrite Hs. cbn [reading submitted isStreaming].
  rewrite Hoff. now destruct (reading k).
Qed.

End Outcomes.

(* ------------------------------------------------------------------ *)
(** ** Failures of the request and of the stream *)
(* ------------------------------------------------------------------ *)

Section Failures.

Import useChat useChatStore Scenario.

(** X4: a successful response without a body ends the call with the error
    ["No response stream available"]; nothing is read, streaming never
    goes on, and history gains the user message only. *)
Theorem missing_body_is_reported (u a : Stamp) (text : JSString) (r : Response)
    (rest : list Resumption) (h : Hook) :
  ok r = true -> has_body r = false ->
  sendMessage u a text (FetchSettled (Resolved r) :: rest) h
  = (request text,
     Finished (settled (messages (chat h) ++ [user_message u text])
                 (Some (lit "No response stream available")))).
Proof.
  intros Hok Hbody. rewrite sendMessage_drive. f_equal.
  cbn [drive resume]. rewrite Hok, Hbody. cbn [negb]. now rewrite drive_Return.
Qed.

(** X5: when [fetch] rejects, or when [response.text()] rejects after a
    failed status, the call ends with the message of the thrown [Error] as
    the error, or with ["An error occurred"] when what was thrown is not an
    [Error]; history gains the user message only. *)
Theorem rejected_request_is_reported (u a : Stamp) (text : JSString)
    (err : Thrown) (rest : list Resumption) (h : Hook) :
  let reported := match err with
                  | ErrorObject message => message
                  | OtherValue => lit "An error occurred"
                  end in
  sendMessage u a text (FetchSettled (Rejected err) :: rest) h
  = (request text,
     Finished (settled (messages (chat h) ++ [user_message u text]) (Some reported)))
  /\ forall r,
       ok r = false ->
       sendMessage u a text
         (FetchSettled (Resolved r) :: TextSettled (Rejected err) :: rest) h
       = (request text,
          Finished (settled (messages (chat h) ++ [user_message u text])
                      (Some reported))).
Proof.
  cbv zeta. split.
  - rewrite sendMessage_drive. f_equal. cbn [drive resume]. now rewrite drive_Return.
  - intros r Hok. rewrite sendMessage_drive. f_equal.
    cbn [drive resume]. rewrite Hok. cbn [negb drive resume]. now rewrite drive_Return.
Qed.

(** X6: when a read rejects in the middle of the stream, the text
    accumulated so far is dropped: no assistant message is committed, the
    error is the message of what was thrown, and later settlements are not
    looked at. *)
Theorem rejected_read_drops_accumulation (u a : Stamp) (text : JSString)
    (r : Response) (values : list Block) (acc : JSString) (err : Thrown)
    (rest : list Resumption) (h : Hook) :
  ok r = true -> has_body r = true ->
  accumulate [] values = Some acc ->
  sendMessage u a text
    (FetchSettled (Resolved r) :: read_values values
     ++ ReadSettled (Rejected err) :: rest) h
  = (request text,
     Finished (settled (messages (chat h) ++ [user_message u text])
                 (Some match err with
                       | ErrorObject message => message
                       | OtherValue => lit "An error occurred"
                       end))).
Proof.
  intros Hok Hbody Hacc.
  rewrite (sendMessage_streaming u a text r values _ h Hok Hbody Hacc).
  f_equal. cbn [drive resume]. now rewrite drive_Return.
Qed.

(** X9: parsed data is used as it comes.  An object without a [content]
    member is not an error: the text ["undefined"] is appended to the
    accumulation, and whether the stream is complete is the truthiness of
    whatever [done] holds. *)
Theorem missing_content_reads_undefined (acc : JSString)
    (members : list (JSString * JSON)) :
  own_property (lit "content") members = None ->
  consume acc (Parses (JObject members))
  = Normal (acc ++ lit "undefined", truthy (own_property (lit "done") members)).
Proof.
  intros H. unfold consume. cbn [JSON_parse_decoded bind Get]. now rewrite H.
Qed.

(** A resumption looks at the store, not at [isStreaming]. *)
Lemma resume_store (stamp : Stamp) (k : Suspended) (r : Resumption) (h g : Hook) :
  chat h = chat g ->
  match resume stamp k r h, resume stamp k r g with
  | Some (Suspend k1 h1), Some (Suspend k2 g2) => k1 = k2 /\ chat h1 = chat g2
  | Some (Return h1), Some (Return g2) => h1 = g2
  | None, None => True
  | _, _ => False
  end.
Proof.
  destruct h as [c sh], g as [c' sg]. cbn [chat]. intros <-.
  destruct k as [|code|acc]; destruct r as [[resp|err]|[t|err]|[[|v]|err]];
    cbn [resume]; try exact I; try reflexivity.
  - destruct (negb (ok resp)); [now split|].
    destruct (negb (has_body resp)); [reflexivity|now split].
  - destruct (consume acc v) as [[acc' [|]]|err]; [reflexivity|now split|reflexivity].
Qed.

Lemma drive_store (stamp : Stamp) (script : list Resumption) :
  forall k h g h',
    chat h = chat g ->
    drive stamp (Suspend k h) script = Finished h' ->
    drive stamp (Suspend k g) script = Finished h'.
Proof.
  induction script as [|r script IH]; intros k h g h' E; cbn [drive]; [discriminate|].
  pose proof (resume_store stamp k r h g E) as R.
  destruct (resume stamp k r h) as [[k1 h1|h1]|];
    destruct (resume stamp k r g) as [[k2 g2|g2]|]; try contradiction; try discriminate.
  - destruct R as [<- E1]. now apply IH.
  - subst g2. now rewrite !drive_Return.
Qed.

(** X7: nothing of an earlier exchange but the history reaches the next
    one.  A call that ends does so in the same state whatever the error
    and the loading and streaming flags were when it began. *)
Theorem finished_call_forgets_flags (u a : Stamp) (text : JSString)
    (script : list Resumption) (h g h' : Hook) :
  messages (chat g) = messages (chat h) ->
  snd (sendMessage u a text script h) = Finished h' ->
  snd (sendMessage u a text script g) = Finished h'.
Proof.
  intros E. rewrite !sendMessage_drive. cbn [snd].
  apply drive_store. unfold submitted. cbn [chat]. now rewrite E.
Qed.

Lemma final_history (u a : Stamp) (text : JSString) (script : list Resumption)
    (h : Hook) :
  let after := messages (chat (final (snd (sendMessage u a text script h)))) in
  after = messages (chat h) ++ [user_message u text]
  \/ exists t, after = messages (chat h) ++ [user_message u text; assistant_message a t].
Proof.
  cbv zeta. rewrite sendMessage_drive. cbn [snd].
  destruct (drive a (Suspend AwaitFetch (submitted u text h)) script)
    as [h'|k h'|k r h'] eqn:E; cbn [final].
  - destruct (drive_finished _ _ _ _ E) as [(err & ->) | [-> | (t & ->)]];
      [now left|now left|right; exists t].
    cbn. now rewrite <- app_assoc.
  - left. apply drive_pending in E. destruct E as (-> & _). reflexivity.
  - left. apply drive_unexpected in E. now rewrite E.
Qed.

(** X8: the ids of history stay pairwise distinct through a call, however
    it goes, provided the two ids drawn for it are new and differ. *)
Theorem ids_stay_distinct (u a : Stamp) (text : JSString)
    (script : list Resumption) (h : Hook) :
  NoDup (map id (messages (chat h))) ->
  ~ In (uuid u) (map id (messages (chat h))) ->
  ~ In (uuid a) (map id (messages (chat h))) ->
  uuid u <> uuid a ->
  NoDup (map id (messages (chat (final (snd (sendMessage u a text script h)))))).
Proof.
  intros Hold Hu Ha Hne.
  destruct (final_history u a text script h) as [-> | (t & ->)];
    rewrite map_app; apply NoDup_app; try exact Hold; cbn [map id user_message assistant_message].
  - repeat constructor. now intros [].
  - intros x Hx [<- | []]. exact (Hu Hx).
  - repeat constructor; [|now intros []]. intros [E | []]. exact (Hne (eq_sym E)).
  - intros x Hx [<- | [<- | []]]; [exact (Hu Hx)|exact (Ha Hx)].
Qed.

End Failures.

(* ------------------------------------------------------------------ *)
(** ** The input box and the conversation it builds *)
(* ------------------------------------------------------------------ *)

Section Conversation.

Import useChat useChatStore ChatInput Chat Scenario.

Lemma JSString_eqb_eq (x y : JSString) : JSString_eqb x y = true <-> x = y.
Proof.
  revert y. induction x as [|c x IH]; intros [|d y]; cbn [JSString_eqb];
    try (split; [discriminate|discriminate]); [tauto|].
  rewrite andb_true_iff, N.eqb_eq, IH. split.
  - now intros [-> ->].
  - now intros [= -> ->].
Qed.

Lemma handleSend_sends (draft : JSString) (disabled : option bool) (t : JSString) :
  fst (handleSend draft disabled) = Some t
  <-> disabled <> Some true /\ trim draft <> [] /\ t = trim draft.
Proof.
  unfold handleSend.
  destruct (trim draft) as [|x rest]; cbn [nonempty andb fst].
  - split; [discriminate|]. now intros (_ & H & _).
  - destruct disabled as [[|]|]; cbn [negb fst]; split;
      try discriminate; try (now intros (H & _));
      try (intros [= <-]; repeat split; discriminate);
      now intros (_ & _ & ->).
Qed.

(** X10: a key press sends exactly when the key is Enter without Shift,
    the box is not disabled and the draft does not trim to nothing, and
    what it sends is the trimmed draft; the default action is prevented on
    every Enter without Shift, sent or not; and a key press that sends
    nothing leaves the draft as it is. *)
Theorem keypress_sends_on_plain_enter (e : KeyboardEvent) (draft : JSString)
    (disabled : option bool) :
  (fst (handleKeyPress e draft disabled) = true
   <-> key e = lit "Enter" /\ shiftKey e = false)
  /\ (forall t,
        fst (snd (handleKeyPress e draft disabled)) = Some t
        <-> key e = lit "Enter" /\ shiftKey e = false
            /\ disabled <> Some true /\ trim draft <> [] /\ t = trim draft)
  /\ (fst (snd (handleKeyPress e draft disabled)) = None ->
      snd (snd (handleKeyPress e draft disabled)) = draft).
Proof.
  unfold handleKeyPress.
  destruct (JSString_eqb (key e) (lit "Enter")) eqn:Ek.
  - apply JSString_eqb_eq in Ek.
    destruct (shiftKey e); cbn [andb negb fst snd].
    + split; [|split].
      * split; [discriminate|]. now intros [_ H].
      * intros t. split; [discriminate|]. now intros (_ & H & _).
      * reflexivity.
    + split; [|split].
      * tauto.
      * intros t. rewrite handleSend_sends. tauto.
      * unfold handleSend. now destruct (_ && _).
  - assert (Hk : key e <> lit "Enter").
    { intros H. apply JSString_eqb_eq in H. congruence. }
    cbn [andb fst snd]. split; [|split].
    + split; [discriminate|]. now intros [H _].
    + intros t. split; [discriminate|]. now intros (H & _).
    + reflexivity.
Qed.

(** X11: the Send button is enabled exactly when a click on it would send
    the trimmed draft, and disabled exactly when [handleSend] would do
    nothing; it shows the grey look exactly when it is disabled. *)
Theorem button_enabled_iff_click_sends (draft : JSString) (disabled : option bool) :
  (button_disabled draft disabled = false
   <-> fst (handleSend draft disabled) = Some (trim draft))
  /\ (button_disabled draft disabled = true
      <-> handleSend draft disabled = (None, draft))
  /\ button_class draft disabled
     = lit "px-6 py-3 rounded-lg font-semibold "
       ++ (if button_disabled draft disabled
           then lit "bg-gray-300 cursor-not-allowed"
           else lit "bg-blue-500 hover:bg-blue-600 text-white").
Proof.
  unfold button_disabled, handleSend, button_class.
  destruct disabled as [[|]|]; destruct (nonempty (trim draft));
    cbn [andb orb negb fst]; repeat split; try discriminate; try reflexivity.
Qed.

(** X12: pressing Send twice in a row does what pressing it once does: if
    the first press sent, the box is empty and disabled for the second. *)
Theorem second_press_is_ignored (s1 s2 : Stamp) (c : Client) :
  send s2 (send s1 c) = send s1 c.
Proof.
  destruct (send_cases s1 c) as [E | (_ & _ & E)].
  - rewrite E. unfold send, handleSend in *.
    destruct (nonempty (trim (message c)) && negb (disabled (hook c))) eqn:G;
      [|reflexivity].
    cbn in E. apply (f_equal sent) in E. cbn in E.
    apply (f_equal (@List.length _)) in E. rewrite length_app in E. cbn in E. lia.
  - rewrite E. now apply send_disabled.
Qed.

Lemma ends_user_app (l : list Message) (m : Message) :
  forall p, ends_user p (l ++ [m]) = negb (is_assistant m).
Proof. induction l as [|x l IH]; intros p; cbn; [reflexivity|apply IH]. Qed.

Lemma answered_app (l : list Message) (m : Message) :
  forall p, answered p (l ++ [m])
            = answered p l && (negb (is_assistant m) || ends_user p l).
Proof.
  induction l as [|x l IH]; intros p; cbn [app answered ends_user].
  - destruct (is_assistant m); cbn; [now rewrite andb_true_r|reflexivity].
  - destruct (is_assistant x) eqn:Ex; rewrite IH; cbn [negb].
    + now rewrite andb_assoc.
    + reflexivity.
Qed.

Lemma step_dialogue (e : Event) (c c' : Client) :
  dialogue c -> step e c = Some c' -> dialogue c'.
Proof.
  intros (Hone & Hans & Hend) Hstep.
  split; [exact (step_at_most_one _ _ Hone Hstep)|].
  destruct e as [value|stamp|i stamp r]; cbn [step] in Hstep.
  - injection Hstep as <-. now split.
  - injection Hstep as <-.
    destruct (send_cases stamp c) as [-> | (_ & _ & ->)]; [now split|].
    cbn [hook submitted chat messages running].
    rewrite answered_app, ends_user_app, Hans. now split.
  - unfold at_most_one in Hone.
    destruct (running c) as [|k0 [|k1 more]] eqn:Er; [now destruct i| |contradiction].
    destruct i as [|i]; [|now destruct i]. cbn [nth_error] in Hstep.
    destruct (resume stamp k0 r (hook c)) as [s|] eqn:E; [|discriminate].
    injection Hstep as <-. cbn [hook running firstn skipn app].
    assert (Hlast : ends_user false (messages (chat (hook c))) = true)
      by (apply Hend; discriminate).
    destruct (resume_cases _ _ _ _ E)
      as [(k' & -> & _) | [(_ & ->) | [(err & ->) | [(_ & ->) | (t & _ & ->)]]]];
      cbn [hook_of continuation app]; try (now split).
    split; [|now intros []].
    cbn [finally on_store setIsStreaming chat setLoading addMessage messages].
    rewrite answered_app, Hans, Hlast. now destruct (negb _).
Qed.

(** X13: in every state the mounted component reaches, each assistant
    message in history comes directly after a user message: history never
    begins with an answer and never holds two answers in a row. *)
Theorem answers_follow_questions (events : list Event) (c : Client) :
  run events mount = Some c ->
  answered false (messages (chat (hook c))) = true.
Proof.
  intros Hrun.
  assert (H : dialogue c).
  { eapply run_invariant with (P := dialogue) (c := mount);
      [exact step_dialogue| |exact Hrun].
    repeat split. now intros []. }
  exact (proj1 (proj2 H)).
Qed.

(** X14: in every state the mounted component reaches, the requests sent
    so far are, in order, one per user message in history, each carrying
    that message's content as its only message. *)
Theorem one_request_per_user_message (events : list Event) (c : Client) :
  run events mount = Some c ->
  map body (sent c)
  = map body_for (filter (fun m => negb (is_assistant m)) (messages (chat (hook c)))).
Proof.
  apply (@run_invariant
           (fun c => map body (sent c)
                     = map body_for (filter (fun m => negb (is_assistant m))
                                            (messages (chat (hook c)))))).
  - clear. intros e c c' Hc Hstep.
    destruct e as [value|stamp|i stamp r]; cbn [step] in Hstep.
    + injection Hstep as <-. exact Hc.
    + injection Hstep as <-.
      destruct (send_cases stamp c) as [-> | (_ & _ & ->)]; [exact Hc|].
      cbn [hook submitted chat messages sent].
      rewrite filter_app, !map_app, Hc. reflexivity.
    + destruct (nth_error (running c) i) as [k|]; [|discriminate].
      destruct (resume stamp k r (hook c)) as [s|] eqn:E; [|discriminate].
      injection Hstep as <-. cbn [hook sent].
      destruct (resume_history _ _ _ _ E) as [-> | [t ->]]; [exact Hc|].
      rewrite filter_app. cbn. now rewrite app_nil_r.
  - reflexivity.
Qed.

Lemma step_idle_ready (e : Event) (c c' : Client) :
  idle_ready c -> step e c = Some c' -> idle_ready c'.
Proof.
  intros (Hone & Hidle) Hstep.
  split; [exact (step_at_most_one _ _ Hone Hstep)|].
  destruct e as [value|stamp|i stamp r]; cbn [step] in Hstep.
  - injection Hstep as <-. exact Hidle.
  - injection Hstep as <-.
    destruct (send_cases stamp c) as [-> | (_ & _ & ->)]; [exact Hidle|].
    cbn [running]. intros H. now destruct (running c).
  - unfold at_most_one in Hone.
    destruct (running c) as [|k0 [|k1 more]] eqn:Er; [now destruct i| |contradiction].
    destruct i as [|i]; [|now destruct i]. cbn [nth_error] in Hstep.
    destruct (resume stamp k0 r (hook c)) as [s|] eqn:E; [|discriminate].
    injection Hstep as <-. cbn [hook running firstn skipn app].
    destruct (resume_cases _ _ _ _ E)
      as [(k' & -> & _) | [(_ & ->) | [(err & ->) | [(_ & ->) | (t & _ & ->)]]]];
      cbn [hook_of continuation app]; try discriminate; now intros _.
Qed.

(** X15: in every state the mounted component reaches, once no call is
    running both flags are off, so the input is enabled again and a press
    on a draft that is not blank sends it; and streaming is never on
    without loading. *)
Theorem idle_input_is_enabled (events : list Event) (c : Client) :
  run events mount = Some c ->
  (running c = [] ->
     disabled (hook c) = false
     /\ forall stamp, trim (message c) <> [] ->
          sent (send stamp c) = sent c ++ [request (trim (message c))])
  /\ (isStreaming (hook c) = true -> isLoading (chat (hook c)) = true).
Proof.
  intros Hrun.
  assert (H : idle_ready c).
  { eapply run_invariant with (P := idle_ready) (c := mount);
      [exact step_idle_ready| |exact Hrun].
    now repeat split. }
  destruct H as (Hone & Hidle). split.
  - intros Hr. destruct (Hidle Hr) as [Hl Hs].
    assert (Hoff : disabled (hook c) = false) by (unfold disabled; now rewrite Hl, Hs).
    split; [exact Hoff|]. intros stamp Hne.
    destruct (send_cases stamp c) as [E | (_ & _ & ->)]; [|reflexivity].
    exfalso. unfold send, handleSend in E. rewrite Hoff in E.
    destruct (trim (message c)) as [|x t]; [now apply Hne|].
    cbn in E. apply (f_equal sent) in E. cbn in E.
    apply (f_equal (@List.length _)) in E. rewrite length_app in E. cbn in E. lia.
  - intros Hs. unfold at_most_one in Hone.
    destruct (running c) as [|k [|k2 more]]; [|exact Hone|contradiction].
    destruct (Hidle eq_refl) as [_ Hoff]. congruence.
Qed.

End Conversation.

(* ------------------------------------------------------------------ *)
(** ** Further scenarios *)
(* ------------------------------------------------------------------ *)

Section FurtherScenarios.

Import useChat useChatStore ChatInput Chat Scenario.

(** The dropped stream of Scenario D ends with both flags off. *)
Lemma finished_call_resets_flags_witness :
  snd (sendMessage stamp_u stamp_a (lit "Hi") dropped fresh)
  = Finished (settled [user_message stamp_u (lit "Hi")] None)
  /\ isLoading (chat (settled [user_message stamp_u (lit "Hi")] None)) = false
  /\ isStreaming (settled [user_message stamp_u (lit "Hi")] None) = false.
Proof.
  split; [reflexivity|].
  exact (@finished_call_resets_flags stamp_u stamp_a (lit "Hi") dropped fresh
           (settled [user_message stamp_u (lit "Hi")] None) eq_refl).
Defined.

(** The failed request of Scenario B leaves the user message alone. *)
Lemma finished_call_commits_or_fails_witness :
  snd (sendMessage stamp_u stamp_a (lit "Hi")
         [http 500; TextSettled (Resolved (lit "rate limited"))] fresh)
  = Finished (settled [user_message stamp_u (lit "Hi")]
                (Some (lit "Failed to send message: 500 rate limited")))
  /\ (messages (chat (settled [user_message stamp_u (lit "Hi")]
                        (Some (lit "Failed to send message: 500 rate limited"))))
      = messages (chat fresh) ++ [user_message stamp_u (lit "Hi")]
      \/ exists t,
           messages (chat (settled [user_message stamp_u (lit "Hi")]
                             (Some (lit "Failed to send message: 500 rate limited"))))
           = messages (chat fresh)
             ++ [user_message stamp_u (lit "Hi"); assistant_message stamp_a t]
           /\ error (chat (settled [user_message stamp_u (lit "Hi")]
                             (Some (lit "Failed to send message: 500 rate limited"))))
              = None).
Proof.
  split; [reflexivity|].
  exact (@finished_call_commits_or_fails stamp_u stamp_a (lit "Hi")
           [http 500; TextSettled (Resolved (lit "rate limited"))] fresh
           (settled [user_message stamp_u (lit "Hi")]
              (Some (lit "Failed to send message: 500 rate limited"))) eq_refl).
Defined.

(** One chunk read and the next read not yet settled. *)
Lemma pending_call_state_witness :
  snd (sendMessage stamp_u stamp_a (lit "Hi")
         (http 200 :: read_values (chunks [chunk "Hel" false])) fresh)
  = Pending (AwaitRead (lit "Hel"))
      (setIsStreaming true (submitted stamp_u (lit "Hi") fresh))
  /\ isStreaming fresh = false
  /\ messages (chat (setIsStreaming true (submitted stamp_u (lit "Hi") fresh)))
     = messages (chat fresh) ++ [user_message stamp_u (lit "Hi")]
  /\ isStreaming (setIsStreaming true (submitted stamp_u (lit "Hi") fresh))
     = reading (AwaitRead (lit "Hel")).
Proof.
  split; [reflexivity|split; [reflexivity|]].
  pose proof (@pending_call_state stamp_u stamp_a (lit "Hi")
                (http 200 :: read_values (chunks [chunk "Hel" false])) fresh
                (AwaitRead (lit "Hel"))
                (setIsStreaming true (submitted stamp_u (lit "Hi") fresh)) eq_refl)
    as (_ & _ & Hm & Hs).
  split; [exact Hm|exact (Hs eq_refl)].
Defined.

(** A 204 without a body. *)
Lemma missing_body_is_reported_witness :
  ok {| status := 204; has_body := false |} = true
  /\ sendMessage stamp_u stamp_a (lit "Hi") [bodiless] fresh
     = (request (lit "Hi"),
        Finished (settled [user_message stamp_u (lit "Hi")]
                    (Some (lit "No response stream available")))).
Proof.
  split; [reflexivity|].
  exact (@missing_body_is_reported stamp_u stamp_a (lit "Hi")
           {| status := 204; has_body := false |} [] fresh eq_refl eq_refl).
Defined.

(** A 502 whose body cannot be read, by something that is not an [Error]. *)
Lemma rejected_request_is_reported_witness :
  ok {| status := 502; has_body := true |} = false
  /\ sendMessage stamp_u stamp_a (lit "Hi")
       [http 502; TextSettled (Rejected OtherValue)] fresh
     = (request (lit "Hi"),
        Finished (settled [user_message stamp_u (lit "Hi")]
                    (Some (lit "An error occurred")))).
Proof.
  split; [reflexivity|].
  exact (proj2 (@rejected_request_is_reported stamp_u stamp_a (lit "Hi")
                  OtherValue [] fresh)
           {| status := 502; has_body := true |} eq_refl).
Defined.

(** The network fails after ["Hel"]. *)
Lemma rejected_read_drops_accumulation_witness :
  accumulate [] (chunks [chunk "Hel" false]) = Some (lit "Hel")
  /\ sendMessage stamp_u stamp_a (lit "Hi") cut_off fresh
     = (request (lit "Hi"),
        Finished (settled [user_message stamp_u (lit "Hi")]
                    (Some (lit "network error")))).
Proof.
  split; [reflexivity|].
  exact (@rejected_read_drops_accumulation stamp_u stamp_a (lit "Hi")
           {| status := 200; has_body := true |} (chunks [chunk "Hel" false])
           (lit "Hel") (ErrorObject (lit "network error")) [] fresh
           eq_refl eq_refl eq_refl).
Defined.

(** The same exchange begun with and without a stale error and flags. *)
Lemma finished_call_forgets_flags_witness :
  messages (chat {| chat := {| messages := []; isLoading := true;
                               error := Some (lit "old") |};
                    isStreaming := true |})
  = messages (chat fresh)
  /\ snd (sendMessage stamp_u stamp_a (lit "Hi") (http 200 :: read_values (chunks hello))
            {| chat := {| messages := []; isLoading := true;
                          error := Some (lit "old") |};
               isStreaming := true |})
     = Finished (settled [user_message stamp_u (lit "Hi");
                          assistant_message stamp_a (lit "Hello")] None).
Proof.
  split; [reflexivity|].
  exact (@finished_call_forgets_flags stamp_u stamp_a (lit "Hi")
           (http 200 :: read_values (chunks hello)) fresh
           {| chat := {| messages := []; isLoading := true;
                         error := Some (lit "old") |};
              isStreaming := true |}
           (settled [user_message stamp_u (lit "Hi");
                     assistant_message stamp_a (lit "Hello")] None)
           eq_refl eq_refl).
Defined.

(** A second exchange with two new ids. *)
Lemma ids_stay_distinct_witness :
  NoDup (map id (messages (chat returning)))
  /\ NoDup (map id (messages (chat (final (snd
       (sendMessage stamp_u stamp_a (lit "Hi") (http 200 :: read_values (chunks hello))
          returning)))))).
Proof.
  assert (Hold : NoDup (map id (messages (chat returning)))).
  { repeat constructor; cbn; intuition discriminate. }
  split; [exact Hold|].
  apply (@ids_stay_distinct stamp_u stamp_a (lit "Hi")
           (http 200 :: read_values (chunks hello)) returning Hold).
  - cbn. intuition discriminate.
  - cbn. intuition discriminate.
  - discriminate.
Defined.

(** An object with a numeric [done] and no [content]. *)
Lemma missing_content_reads_undefined_witness :
  own_property (lit "content") [(lit "done", JNumber (lit "1") true)] = None
  /\ consume (lit "Hel") (Parses (JObject [(lit "done", JNumber (lit "1") true)]))
     = Normal (lit "Helundefined", true).
Proof.
  split; [reflexivity|].
  exact (@missing_content_reads_undefined (lit "Hel")
           [(lit "done", JNumber (lit "1") true)] eq_refl).
Defined.

(** Enter sends the trimmed draft; Shift+Enter does not. *)
Lemma keypress_sends_on_plain_enter_witness :
  fst (snd (handleKeyPress {| key := lit "Enter"; shiftKey := false |}
              (lit " Hi ") (Some false)))
  = Some (lit "Hi")
  /\ fst (snd (handleKeyPress {| key := lit "Enter"; shiftKey := true |}
                 (lit " Hi ") (Some false)))
     = None
  /\ snd (snd (handleKeyPress {| key := lit "Enter"; shiftKey := true |}
                 (lit " Hi ") (Some false)))
     = lit " Hi ".
Proof.
  split; [|split; [reflexivity|]].
  - apply (proj1 (proj2 (keypress_sends_on_plain_enter
                           {| key := lit "Enter"; shiftKey := false |}
                           (lit " Hi ") (Some false)))).
    repeat split; discriminate.
  - exact (proj2 (proj2 (keypress_sends_on_plain_enter
                           {| key := lit "Enter"; shiftKey := true |}
                           (lit " Hi ") (Some false))) eq_refl).
Defined.

(** An enabled and a disabled button. *)
Lemma button_enabled_iff_click_sends_witness :
  button_disabled (lit " Hi ") None = false
  /\ fst (handleSend (lit " Hi ") None) = Some (lit "Hi")
  /\ button_disabled (lit "   ") (Some false) = true
  /\ handleSend (lit "   ") (Some false) = (None, lit "   ").
Proof.
  split; [reflexivity|split; [|split; [reflexivity|]]].
  - exact (proj1 (proj1 (button_enabled_iff_click_sends (lit " Hi ") None)) eq_refl).
  - exact (proj1 (proj1 (proj2 (button_enabled_iff_click_sends (lit "   ") (Some false))))
             eq_refl).
Defined.

(** Two exchanges, one answered and one failed. *)
Lemma answers_follow_questions_witness :
  run two_exchanges mount = Some after_two_exchanges
  /\ answered false (messages (chat (hook after_two_exchanges))) = true.
Proof.
  split; [reflexivity|].
  exact (@answers_follow_questions two_exchanges after_two_exchanges eq_refl).
Defined.

Lemma one_request_per_user_message_witness :
  run two_exchanges mount = Some after_two_exchanges
  /\ map body (sent after_two_exchanges)
     = map body_for
         (filter (fun m => negb (is_assistant m))
                 (messages (chat (hook after_two_exchanges)))).
Proof.
  split; [reflexivity|].
  exact (@one_request_per_user_message two_exchanges after_two_exchanges eq_refl).
Defined.

(** After the two exchanges the box is enabled and ["next"] goes out. *)
Lemma idle_input_is_enabled_witness :
  run (two_exchanges ++ [Change (lit "next")]) mount
  = Some {| hook := hook after_two_exchanges; message := lit "next";
            running := []; sent := sent after_two_exchanges |}
  /\ disabled (hook after_two_exchanges) = false
  /\ sent (send stamp_u {| hook := hook after_two_exchanges; message := lit "next";
                           running := []; sent := sent after_two_exchanges |})
     = sent after_two_exchanges ++ [request (lit "next")].
Proof.
  split; [reflexivity|].
  destruct (proj1 (@idle_input_is_enabled (two_exchanges ++ [Change (lit "next")])
                     {| hook := hook after_two_exchanges; message := lit "next";
                        running := []; sent := sent after_two_exchanges |} eq_refl)
              eq_refl) as [Hoff Hsend].
  split; [exact Hoff|]. apply (Hsend stamp_u). discriminate.
Defined.

End FurtherScenarios.
